(** * wKrQ / ACrQ signed tableaux: branch closure, oracle rule, proof search

    A shallow embedding of [wkrq/acrq_tableau.py] (the ACrQ branch, the
    oracle-backed evaluation rule, [construct] and [apply_rule]) and of
    [TheoryManager.check_satisfiability] from [wkrq/theory_manager.py].

    The modules [signs], [formula], [semantics], [tableau], [wkrq_rules] and
    [acrq_ferguson_rules] that these files import are not part of the source
    tree at hand.  What is needed from them is either taken from the written
    specification (every such definition says so in its comment) or kept
    abstract as a variable of the section that uses it. *)

From stdpp Require Import base strings list gmap pretty.
From Stdlib Require Import Lia Ascii.

Open Scope string_scope.
Open Scope list_scope.
Open Scope nat_scope.

(** ** Signs *)

(** Modelled from the spec: module [signs] is missing; section 3 lists the six
    signs.  They live in a module of their own because their names are one
    letter long. *)
Module signs.

Inductive Sign : Set := t | f | e | m | n | v.

#[global] Instance Sign_eq_dec : EqDecision Sign.
Proof. solve_decision. Defined.

End signs.

Abbreviation Sign := signs.Sign.

(** ** Truth values *)

(** Modelled from the spec: module [semantics] is missing; section 3 gives the
    three truth values and the bilateral pair [<positive, negative>]. *)
Inductive TruthValue : Set := TRUE | FALSE | UNDEFINED.

#[global] Instance TruthValue_eq_dec : EqDecision TruthValue.
Proof. solve_decision. Defined.

Record BilateralTruthValue : Set := mkBilateral {
  positive : TruthValue;
  negative : TruthValue
}.

#[global] Instance BilateralTruthValue_eq_dec : EqDecision BilateralTruthValue.
Proof. solve_decision. Defined.

(** ** Terms and formulas *)

(** Modelled from the spec: module [formula] is missing.  The constructors are
    the classes that the source imports from it and tests with [isinstance];
    the fields are the attributes the source reads ([predicate_name],
    [terms], [positive_name], [is_negative], [subformulas], [restriction],
    [matrix]). *)
Inductive Term : Set :=
| Var (name : string)
| Constant (name : string).

#[global] Instance Term_eq_dec : EqDecision Term.
Proof. solve_decision. Defined.

#[warnings="-register-all"]
Inductive Formula : Set :=
| PropositionalAtom (name : string)
| PredicateFormula (predicate_name : string) (terms : list Term)
| BilateralPredicateFormula (positive_name : string) (terms : list Term)
    (is_negative : bool)
| CompoundFormula (connective : string) (subformulas : list Formula)
| RestrictedExistentialFormula (var : string) (restriction matrix : Formula)
| RestrictedUniversalFormula (var : string) (restriction matrix : Formula).

#[global] Instance Formula_eq_dec : EqDecision Formula.
Proof.
  unfold EqDecision, Decision.
  fix IH 1. intros x y.
  decide equality.
  all: try (refine (decide _)).
  apply (List.list_eq_dec IH).
Defined.

(** Modelled from the spec: section 3 asks that [BilateralAtom(p, ts, negative)]
    and [Atom("p*", ts)] compare equal "by a canonical representation", and
    that equality be structural otherwise.  [canonical] is that
    representation, [formula_eqb] the [__eq__] the branch index keys on. *)
Fixpoint canonical (φ : Formula) : Formula :=
  match φ with
  | BilateralPredicateFormula p ts true => PredicateFormula (p +:+ "*") ts
  | CompoundFormula c subs => CompoundFormula c (map canonical subs)
  | RestrictedExistentialFormula x r b =>
      RestrictedExistentialFormula x (canonical r) (canonical b)
  | RestrictedUniversalFormula x r b =>
      RestrictedUniversalFormula x (canonical r) (canonical b)
  | _ => φ
  end.

Definition formula_eqb (φ ψ : Formula) : bool :=
  bool_decide (canonical φ = canonical ψ).

(** [formula.is_atomic()]: section 3, "atomic iff it is an Atom or a
    BilateralAtom". *)
Definition is_atomic (φ : Formula) : bool :=
  match φ with
  | PropositionalAtom _ | PredicateFormula _ _
  | BilateralPredicateFormula _ _ _ => true
  | _ => false
  end.

(** [isinstance(φ, (PredicateFormula, BilateralPredicateFormula))]. *)
Definition is_predicate (φ : Formula) : bool :=
  match φ with
  | PredicateFormula _ _ | BilateralPredicateFormula _ _ _ => true
  | _ => false
  end.

Definition formula_terms (φ : Formula) : list Term :=
  match φ with
  | PredicateFormula _ ts | BilateralPredicateFormula _ ts _ => ts
  | _ => []
  end.

(** [BilateralPredicateFormula.get_dual()]: the same predicate and arguments
    with the polarity flipped (section 4.3, "the bilateral dual"). *)
Definition get_dual (φ : Formula) : Formula :=
  match φ with
  | BilateralPredicateFormula p ts neg => BilateralPredicateFormula p ts (negb neg)
  | _ => φ
  end.

Definition term_str (x : Term) : string :=
  match x with Var s => s | Constant s => s end.

Fixpoint join (sep : string) (l : list string) : string :=
  match l with
  | [] => ""
  | [s] => s
  | s :: rest => s +:+ sep +:+ join sep rest
  end.

(** Modelled from the spec: [str(formula)] follows the surface syntax of
    section 6 ([Ident], [Ident(term, ...)], [Ident*(...)], [~φ], [(φ & ψ)],
    [[forall X α]β]); the tests compare [str] of an atom with
    ["Human(socrates)"]. *)
Fixpoint formula_str (φ : Formula) : string :=
  match φ with
  | PropositionalAtom p => p
  | PredicateFormula p ts =>
      match ts with
      | [] => p
      | _ => p +:+ "(" +:+ join ", " (map term_str ts) +:+ ")"
      end
  | BilateralPredicateFormula p ts neg =>
      let name := if neg then p +:+ "*" else p in
      match ts with
      | [] => name
      | _ => name +:+ "(" +:+ join ", " (map term_str ts) +:+ ")"
      end
  | CompoundFormula c subs =>
      match subs with
      | [a] => c +:+ formula_str a
      | _ => "(" +:+ join (" " +:+ c +:+ " ") (map formula_str subs) +:+ ")"
      end
  | RestrictedExistentialFormula x r b =>
      "[exists " +:+ x +:+ " " +:+ formula_str r +:+ "]" +:+ formula_str b
  | RestrictedUniversalFormula x r b =>
      "[forall " +:+ x +:+ " " +:+ formula_str r +:+ "]" +:+ formula_str b
  end.

(** [str(formula.terms)]: Python's rendering of a list. *)
Definition terms_str (ts : list Term) : string :=
  "[" +:+ join ", " (map term_str ts) +:+ "]".

(** [name.endswith("*")] and [name[:-1]]. *)
Fixpoint endswith_star (s : string) : bool :=
  match s with
  | EmptyString => false
  | String c EmptyString => bool_decide (c = "*"%char)
  | String _ rest => endswith_star rest
  end.

Fixpoint drop_last (s : string) : string :=
  match s with
  | EmptyString => EmptyString
  | String _ EmptyString => EmptyString
  | String c rest => String c (drop_last rest)
  end.

(** ** Signed formulas, nodes, branches *)

Record SignedFormula : Set := mkSigned {
  sf_sign : Sign;
  sf_formula : Formula
}.

Notation "s ▷ φ" := (mkSigned s φ) (at level 60, no associativity).

#[global] Instance SignedFormula_eq_dec : EqDecision SignedFormula.
Proof. solve_decision. Defined.

(** [TableauNode(id, signed_formula)]; [parent.add_child(node, rule)] records
    the parent and the rule that produced the node. *)
Record TableauNode : Set := mkNode {
  node_id : nat;
  node_formula : SignedFormula;
  node_parent : option nat;
  node_rule : option string
}.

(** Modelled from the spec: class [Branch] of module [tableau] is missing.
    The fields are the attributes [acrq_tableau.py] reads or writes on a
    branch, as section 3 describes them:
    - [formula_index]: the per-sign map [formula -> set(node_id)], kept as
      the list of its entries [(sign ▷ formula, node id)] in insertion order
      and read through [index_lookup];
    - [_universal_instantiations] and [_llm_evaluated] are created lazily by
      the source ([hasattr]), hence the [option];
    - [processed]: the nodes whose rule has already been applied on the
      branch (section 4.6 selects among "unapplied" rules). *)
Record Branch : Type := mkBranch {
  branch_id : nat;
  branch_nodes : list TableauNode;
  formula_index : list (SignedFormula * nat);
  is_closed : bool;
  ground_terms : list Term;
  _universal_instantiations : option (list (SignedFormula * list Term));
  _llm_evaluated : option (gset string);
  branch_bilateral_pairs : gmap string string;
  processed : list nat
}.

(** [self.formula_index[sign][formula]]: the node ids stored under that sign
    for a formula equal to [formula]. *)
Definition index_lookup (b : Branch) (s : Sign) (φ : Formula) : list nat :=
  map snd
    (filter
       (λ entry, sf_sign entry.1 = s
                 ∧ formula_eqb (sf_formula entry.1) φ = true)
       (formula_index b)).

(** ** [ACrQBranch]: closure detection *)

(** The base name and the polarity of a predicate, as both halves of
    [_is_bilateral_glut] compute them: [get_base_name()] and [is_negative]
    for a bilateral predicate; for a plain predicate the name is split at a
    trailing star. *)
Definition base_and_polarity (φ : Formula) : option (string * bool) :=
  match φ with
  | BilateralPredicateFormula p _ neg => Some (p, neg)
  | PredicateFormula name _ =>
      if endswith_star name then Some (drop_last name, true)
      else Some (name, false)
  | _ => None
  end.

(** The loop of [_is_bilateral_glut] over [self.formula_index[sign][formula]].
    [self.nodes[node_id]] indexes the branch's node list; out of range it
    raises [IndexError], which is the [None] outcome. *)
Fixpoint glut_scan (b : Branch) (formula : Formula) (base_name : string)
    (is_negative : bool) (ids : list nat) : option bool :=
  match ids with
  | [] => Some false
  | node_id :: rest =>
      match branch_nodes b !! node_id with
      | None => None
      | Some node =>
          let other := sf_formula (node_formula node) in
          match base_and_polarity other with
          | Some (other_base, other_negative) =>
              if bool_decide (base_name = other_base)
                 && negb (bool_decide (is_negative = other_negative))
                 && bool_decide (terms_str (formula_terms formula)
                                 = terms_str (formula_terms other))
              then Some true
              else glut_scan b formula base_name is_negative rest
          | None => glut_scan b formula base_name is_negative rest
          end
      end
  end.

(** [ACrQBranch._is_bilateral_glut]. *)
Definition _is_bilateral_glut (b : Branch) (formula : Formula) (sign : Sign)
    : option bool :=
  match base_and_polarity formula with
  | None => Some false
  | Some (base_name, is_negative) =>
      glut_scan b formula base_name is_negative (index_lookup b sign formula)
  end.

(** The [for other_sign in [t, f, e]] loop of [_check_contradiction]. *)
Fixpoint contradiction_scan (b : Branch) (formula : Formula) (sign : Sign)
    (others : list Sign) : option bool :=
  match others with
  | [] => Some false
  | other_sign :: rest =>
      if bool_decide (other_sign ≠ sign)
         && bool_decide (0 < length (index_lookup b other_sign formula))
      then
        if bool_decide (sign = signs.t) && bool_decide (other_sign = signs.t)
        then
          match _is_bilateral_glut b formula sign with
          | None => None
          | Some true => Some false
          | Some false => Some true
          end
        else Some true
      else contradiction_scan b formula sign rest
  end.

(** [ACrQBranch._check_contradiction]; [None] stands for an exception
    escaping from [_is_bilateral_glut]. *)
Definition _check_contradiction (b : Branch) (new_formula : SignedFormula)
    : option bool :=
  let formula := sf_formula new_formula in
  let sign := sf_sign new_formula in
  contradiction_scan b formula sign [signs.t; signs.f; signs.e].

(** The plain closure test of section 4.4 for wKrQ, in the words of the
    specification: the index holds the same formula under a sign of
    [{t, f, e}] other than the new one. *)
Definition distinct_sign_conflict (b : Branch) (new_formula : SignedFormula)
    : Prop :=
  ∃ other_sign,
    other_sign ∈ [signs.t; signs.f; signs.e]
    ∧ other_sign ≠ sf_sign new_formula
    ∧ ∃ entry, entry ∈ formula_index b
        ∧ sf_sign entry.1 = other_sign
        ∧ formula_eqb (sf_formula entry.1) (sf_formula new_formula) = true.

(** The same test as a function. *)
Definition distinct_sign_check (b : Branch) (new_formula : SignedFormula)
    : bool :=
  existsb
    (λ other_sign,
       bool_decide (other_sign ≠ sf_sign new_formula)
       && bool_decide
            (0 < length (index_lookup b other_sign (sf_formula new_formula))))
    [signs.t; signs.f; signs.e].

(** The verdict of the probe as [add_formula] reads it.  The exceptional
    outcome never arises (lemma [_check_contradiction_plain] below); it is
    read as "no contradiction". *)
Definition contradiction_verdict (b : Branch) (sf : SignedFormula) : bool :=
  match _check_contradiction b sf with
  | Some verdict => verdict
  | None => false
  end.

(** The constants that occur in a formula. *)
Fixpoint formula_constants (φ : Formula) : list Term :=
  match φ with
  | PropositionalAtom _ => []
  | PredicateFormula _ ts | BilateralPredicateFormula _ ts _ =>
      List.filter
        (λ x, match x with Constant _ => true | Var _ => false end) ts
  | CompoundFormula _ subs => concat (map formula_constants subs)
  | RestrictedExistentialFormula _ r b | RestrictedUniversalFormula _ r b =>
      formula_constants r ++ formula_constants b
  end.

(** Set union on lists without repetition, for [ground_terms]. *)
Definition add_terms (old new : list Term) : list Term :=
  foldl (λ acc c, if bool_decide (c ∈ acc) then acc else acc ++ [c]) old new.

(** Modelled from the spec: [Branch.add_formula] is missing.  Section 4.4:
    "on inserting [sign ▷ φ] into a branch, probe the per-sign index for each
    incompatible sign; on a hit, consult the whitelist policy; if not
    whitelisted, mark closed".  The probe is the overridable method
    [_check_contradiction], asked before the formula enters the index; the
    node, the index entry and the constants of the formula (section 3,
    [ground_terms]) are recorded, and the call returns [True] exactly when
    the insertion closes the branch. *)
Definition add_formula (b : Branch) (signed_formula : SignedFormula)
    (node : TableauNode) : Branch * bool :=
  let closes := contradiction_verdict b signed_formula in
  ({| branch_id := branch_id b;
      branch_nodes := branch_nodes b ++ [node];
      formula_index := formula_index b ++ [(signed_formula, node_id node)];
      is_closed := is_closed b || closes;
      ground_terms :=
        add_terms (ground_terms b)
          (formula_constants (sf_formula signed_formula));
      _universal_instantiations := _universal_instantiations b;
      _llm_evaluated := _llm_evaluated b;
      branch_bilateral_pairs := branch_bilateral_pairs b;
      processed := processed b |},
   closes).

(** ** Rules *)

Inductive RuleType : Set := ALPHA | BETA.

(** Modelled from the spec: class [FergusonRule] of [acrq_ferguson_rules] is
    missing; the source reads [name], [conclusions],
    [instantiation_constant] and calls [is_branching()].  Section 4.2: "a
    rule with a single conclusion list is α; a rule with k>1 lists is β". *)
Record FergusonRule : Set := mkFergusonRule {
  fr_name : string;
  fr_conclusions : list (list SignedFormula);
  fr_instantiation_constant : option Term
}.

Definition is_branching (r : FergusonRule) : bool :=
  bool_decide (1 < length (fr_conclusions r)).

(** [RuleInfo], with the keyword arguments the source passes. *)
Record RuleInfo : Set := mkRuleInfo {
  name : string;
  rule_type : RuleType;
  priority : nat;
  complexity_cost : nat;
  conclusions : list (list SignedFormula);
  instantiation_constant : option Term
}.

(** ** Models *)

(** Modelled from the spec: class [Model] of [tableau] is missing; section 4.8
    gives it a valuation of the atoms by their printed form and a domain of
    constants.  Both are Python collections compared extensionally. *)
Record Model : Type := mkModel {
  valuations : gmap string TruthValue;
  constants : gset string
}.

(** [ACrQModel]: a [Model] with [bilateral_valuations]. *)
Record ACrQModel : Type := mkACrQModel {
  acrq_valuations : gmap string TruthValue;
  acrq_constants : gset string;
  bilateral_valuations : gmap string BilateralTruthValue
}.

#[global] Instance ACrQModel_eq_dec : EqDecision ACrQModel.
Proof. solve_decision. Defined.

(** ["(" in s] and the two halves of [s.split("(", 1)]. *)
Fixpoint before_paren (s : string) : string :=
  match s with
  | EmptyString => EmptyString
  | String c rest =>
      if bool_decide (c = "("%char) then EmptyString
      else String c (before_paren rest)
  end.

Fixpoint after_paren (s : string) : option string :=
  match s with
  | EmptyString => None
  | String c rest =>
      if bool_decide (c = "("%char) then Some rest else after_paren rest
  end.

(** One round of the first loop of [ACrQModel.__post_init__].  The source
    groups the entries by base name in a dictionary of dictionaries and
    flattens it in the second loop; as the key starts with the base name,
    the flat map is the same. *)
Definition bilateral_step (atom_str : string) (value : TruthValue)
    (acc : gmap string BilateralTruthValue) : gmap string BilateralTruthValue :=
  match after_paren atom_str with
  | None => acc
  | Some tail =>
      let pred_name := before_paren atom_str in
      let args := "(" +:+ tail in
      let base_name := if endswith_star pred_name then drop_last pred_name
                       else pred_name in
      let is_negative := endswith_star pred_name in
      let key := base_name +:+ args in
      let old := default (mkBilateral FALSE FALSE) (acc !! key) in
      if is_negative then <[key := mkBilateral (positive old) value]> acc
      else <[key := mkBilateral value (negative old)]> acc
  end.

(** [ACrQModel(valuations=..., constants=...)] with its [__post_init__]. *)
Definition ACrQModel_init (vals : gmap string TruthValue) (consts : gset string)
    : ACrQModel :=
  {| acrq_valuations := vals;
     acrq_constants := consts;
     bilateral_valuations := map_fold bilateral_step ∅ vals |}.

(** ** The tableau *)

(** The oracle: [None] is an exception raised by the evaluator. *)
Definition Oracle : Type := Formula → option BilateralTruthValue.

(** The attributes of an [ACrQTableau] that [acrq_tableau.py] uses.  Branch
    objects are shared between [branches], [open_branches] and
    [closed_branches]; here [branches] holds them and the other two lists
    hold their ids. *)
Record Tableau : Type := mkTableau {
  branches : list Branch;
  open_branches : list nat;
  closed_branches : list nat;
  nodes : list TableauNode;
  node_counter : nat;
  _constant_counter : nat;
  early_termination : bool;
  max_branching_factor : nat;
  bilateral_pairs : gmap string string;
  logic_system : string;
  llm_evaluator : option Oracle
}.

Definition empty_branch (id : nat) : Branch :=
  {| branch_id := id; branch_nodes := []; formula_index := [];
     is_closed := false; ground_terms := [];
     _universal_instantiations := None; _llm_evaluated := None;
     branch_bilateral_pairs := ∅; processed := [] |}.

(** The branch object with a given id. *)
Definition the_branch (T : Tableau) (id : nat) : Branch :=
  default (empty_branch id)
    (List.find (λ b, bool_decide (branch_id b = id)) (branches T)).

Definition set_branches (bs : list Branch) (T : Tableau) : Tableau :=
  {| branches := bs; open_branches := open_branches T;
     closed_branches := closed_branches T; nodes := nodes T;
     node_counter := node_counter T; _constant_counter := _constant_counter T;
     early_termination := early_termination T;
     max_branching_factor := max_branching_factor T;
     bilateral_pairs := bilateral_pairs T; logic_system := logic_system T;
     llm_evaluator := llm_evaluator T |}.

(** A mutation of the branch object with a given id. *)
Definition update_branch (id : nat) (g : Branch → Branch) (T : Tableau)
    : Tableau :=
  set_branches
    (map (λ b, if bool_decide (branch_id b = id) then g b else b) (branches T))
    T.

Definition set_constant_counter (c : nat) (T : Tableau) : Tableau :=
  {| branches := branches T; open_branches := open_branches T;
     closed_branches := closed_branches T; nodes := nodes T;
     node_counter := node_counter T; _constant_counter := c;
     early_termination := early_termination T;
     max_branching_factor := max_branching_factor T;
     bilateral_pairs := bilateral_pairs T; logic_system := logic_system T;
     llm_evaluator := llm_evaluator T |}.

(** [self.nodes.append(new_node)] after [self.node_counter += 1]. *)
Definition append_node (nd : TableauNode) (T : Tableau) : Tableau :=
  {| branches := branches T; open_branches := open_branches T;
     closed_branches := closed_branches T; nodes := nodes T ++ [nd];
     node_counter := node_counter T + 1;
     _constant_counter := _constant_counter T;
     early_termination := early_termination T;
     max_branching_factor := max_branching_factor T;
     bilateral_pairs := bilateral_pairs T; logic_system := logic_system T;
     llm_evaluator := llm_evaluator T |}.

(** [self.open_branches.remove(branch)] (the first occurrence). *)
Fixpoint remove_first (x : nat) (l : list nat) : list nat :=
  match l with
  | [] => []
  | y :: rest => if bool_decide (x = y) then rest else y :: remove_first x rest
  end.

(** The four lines that move a branch from the open to the closed list. *)
Definition close_branch (id : nat) (T : Tableau) : Tableau :=
  if bool_decide (id ∈ open_branches T) then
    {| branches := branches T;
       open_branches := remove_first id (open_branches T);
       closed_branches := closed_branches T ++ [id]; nodes := nodes T;
       node_counter := node_counter T;
       _constant_counter := _constant_counter T;
       early_termination := early_termination T;
       max_branching_factor := max_branching_factor T;
       bilateral_pairs := bilateral_pairs T; logic_system := logic_system T;
       llm_evaluator := llm_evaluator T |}
  else T.

(** [if not hasattr(branch, "_llm_evaluated"): branch._llm_evaluated = set()]. *)
Definition ensure_llm_evaluated (b : Branch) : Branch :=
  match _llm_evaluated b with
  | Some _ => b
  | None =>
      {| branch_id := branch_id b; branch_nodes := branch_nodes b;
         formula_index := formula_index b; is_closed := is_closed b;
         ground_terms := ground_terms b;
         _universal_instantiations := _universal_instantiations b;
         _llm_evaluated := Some ∅;
         branch_bilateral_pairs := branch_bilateral_pairs b;
         processed := processed b |}
  end.

(** [branch._llm_evaluated.add(key)], after the [hasattr] guard. *)
Definition mark_llm_evaluated (key : string) (b : Branch) : Branch :=
  {| branch_id := branch_id b; branch_nodes := branch_nodes b;
     formula_index := formula_index b; is_closed := is_closed b;
     ground_terms := ground_terms b;
     _universal_instantiations := _universal_instantiations b;
     _llm_evaluated := Some ({[ key ]} ∪ default ∅ (_llm_evaluated b));
     branch_bilateral_pairs := branch_bilateral_pairs b;
     processed := processed b |}.

(** [branch._universal_instantiations = {}] when the attribute is absent. *)
Definition ensure_universal_instantiations (b : Branch) : Branch :=
  match _universal_instantiations b with
  | Some _ => b
  | None =>
      {| branch_id := branch_id b; branch_nodes := branch_nodes b;
         formula_index := formula_index b; is_closed := is_closed b;
         ground_terms := ground_terms b;
         _universal_instantiations := Some [];
         _llm_evaluated := _llm_evaluated b;
         branch_bilateral_pairs := branch_bilateral_pairs b;
         processed := processed b |}
  end.

(** [f"llm_evaluated_{formula}"]. *)
Definition evaluation_key (φ : Formula) : string :=
  "llm_evaluated_" +:+ formula_str φ.

(** [key in branch._llm_evaluated]. *)
Definition llm_evaluated_mem (key : string) (b : Branch) : bool :=
  bool_decide (key ∈ default (∅ : gset string) (_llm_evaluated b)).

(** ** Effects: the tableau and the record of oracle calls *)

(** The engine mutates the tableau in place and calls the oracle.  Both are
    threaded through a state monad; [oracle_calls] lists, oldest first, the
    branch and the formula of every call made to the evaluator. *)
Record World : Type := mkWorld {
  tableau : Tableau;
  oracle_calls : list (nat * Formula)
}.

Definition M (A : Type) : Type := World → A * World.

#[global] Instance M_ret : MRet M := λ A a w, (a, w).

#[global] Instance M_bind : MBind M :=
  λ A B k c w, let '(a, w') := c w in k a w'.

Definition get_tableau : M Tableau := λ w, (tableau w, w).

Definition modify_tableau (g : Tableau → Tableau) : M unit :=
  λ w, (tt, {| tableau := g (tableau w); oracle_calls := oracle_calls w |}).

Definition record_call (branch : nat) (φ : Formula) : M unit :=
  λ w, (tt, {| tableau := tableau w;
               oracle_calls := oracle_calls w ++ [(branch, φ)] |}).

(** ** [ACrQTableau]: rule selection, the oracle rule, rule application *)

(** [signed_formula == key] for the keys of [_universal_instantiations]. *)
Definition signed_eqb (a b : SignedFormula) : bool :=
  bool_decide (sf_sign a = sf_sign b) && formula_eqb (sf_formula a) (sf_formula b).

(** [branch._universal_instantiations.get(signed_formula, set())]. *)
Definition instantiations_get (inst : list (SignedFormula * list Term))
    (sf : SignedFormula) : list Term :=
  match List.find (λ entry, signed_eqb entry.1 sf) inst with
  | Some entry => entry.2
  | None => []
  end.


(** The first branch of the oracle rule: the sign for the positive part. *)
Definition positive_conclusion (bilateral_value : BilateralTruthValue)
    (φ : Formula) : list SignedFormula :=
  if bool_decide (positive bilateral_value = TRUE) then [signs.t ▷ φ]
  else if bool_decide (positive bilateral_value = FALSE) then [signs.f ▷ φ]
  else if bool_decide (positive bilateral_value = UNDEFINED) then [signs.e ▷ φ]
  else [].

(** The dual predicate [R*] the oracle rule builds for a predicate. *)
Definition dual_formula (φ : Formula) : Formula :=
  match φ with
  | BilateralPredicateFormula _ _ _ => get_dual φ
  | PredicateFormula predicate_name terms =>
      BilateralPredicateFormula predicate_name terms true
  | _ => φ
  end.

(** The second branch of the oracle rule: the sign for the negative part. *)
Definition negative_conclusion (bilateral_value : BilateralTruthValue)
    (φ : Formula) : list SignedFormula :=
  if is_predicate φ then
    if bool_decide (negative bilateral_value = TRUE)
    then [signs.t ▷ dual_formula φ]
    else if bool_decide (negative bilateral_value = FALSE)
    then [signs.f ▷ dual_formula φ]
    else if bool_decide (negative bilateral_value = UNDEFINED)
    then [signs.e ▷ dual_formula φ]
    else []
  else [].

(** [ACrQTableau._create_llm_evaluation_rule]. *)
Definition _create_llm_evaluation_rule (signed_formula : SignedFormula)
    (branch : nat) : M (option RuleInfo) :=
  T ← get_tableau;
  match llm_evaluator T with
  | None => mret None
  | Some evaluator =>
      let φ := sf_formula signed_formula in
      if negb (is_atomic φ) then mret None
      else
        modify_tableau (update_branch branch ensure_llm_evaluated);;
        T1 ← get_tableau;
        if llm_evaluated_mem (evaluation_key φ) (the_branch T1 branch)
        then mret None
        else
          record_call branch φ;;
          match evaluator φ with
          | None => mret None
          | Some bilateral_value =>
              let conclusion_set :=
                positive_conclusion bilateral_value φ
                ++ negative_conclusion bilateral_value φ in
              match conclusion_set with
              | [] => mret None
              | _ =>
                  mret (Some
                    {| name := "LLM-Eval(" +:+ formula_str φ +:+ ")";
                       rule_type := ALPHA;
                       priority := 5;
                       complexity_cost := length conclusion_set;
                       conclusions := [conclusion_set];
                       instantiation_constant := None |})
              end
          end
  end.

(** The loop of [apply_rule] over the conclusions of an LLM-Eval rule.  The
    boolean tells whether the method returned from inside the loop, the
    branch having closed. *)
Fixpoint add_llm_conclusions (node : TableauNode) (branch : nat)
    (rule_name : string) (conclusion_set : list SignedFormula) (T : Tableau)
    : Tableau * bool :=
  match conclusion_set with
  | [] => (T, false)
  | signed_formula :: rest =>
      let new_node :=
        {| node_id := node_counter T; node_formula := signed_formula;
           node_parent := Some (node_id node);
           node_rule := Some rule_name |} in
      let T1 := append_node new_node T in
      let '(b', closed) := add_formula (the_branch T1 branch) signed_formula new_node in
      let T2 := update_branch branch (λ _, b') T1 in
      if closed then (close_branch branch T2, true)
      else add_llm_conclusions node branch rule_name rest T2
  end.

(** The sort key of section 4.6: priority, then complexity cost, then node
    id, all ascending. *)
Definition rule_key_le (a b : TableauNode * RuleInfo) : bool :=
  let '(pa, ca, ia) := (priority a.2, complexity_cost a.2, node_id a.1) in
  let '(pb, cb, ib) := (priority b.2, complexity_cost b.2, node_id b.1) in
  (pa <? pb)%nat
  || ((pa =? pb)%nat
      && ((ca <? cb)%nat || ((ca =? cb)%nat && (ia <=? ib)%nat))).

Fixpoint insert_rule (x : TableauNode * RuleInfo)
    (l : list (TableauNode * RuleInfo)) : list (TableauNode * RuleInfo) :=
  match l with
  | [] => [x]
  | y :: rest => if rule_key_le x y then x :: l else y :: insert_rule x rest
  end.

Definition sort_rules (l : list (TableauNode * RuleInfo))
    : list (TableauNode * RuleInfo) :=
  foldr insert_rule [] l.

(** The inner loop of the early-termination test of [construct]: is every
    atomic node of the branch marked as evaluated? *)
Definition all_nodes_evaluated (b : Branch) : bool :=
  forallb
    (λ node,
       negb (is_atomic (sf_formula (node_formula node))
             && negb (llm_evaluated_mem
                        (evaluation_key (sf_formula (node_formula node))) b)))
    (branch_nodes b).

(** The outer loop of that test, over the open branches; it creates the
    [_llm_evaluated] set of every branch it visits and stops at the first
    branch with an unevaluated atom. *)
Fixpoint early_termination_scan (open : list nat) (T : Tableau)
    : Tableau * bool :=
  match open with
  | [] => (T, true)
  | branch :: rest =>
      let T1 := update_branch branch ensure_llm_evaluated T in
      if all_nodes_evaluated (the_branch T1 branch)
      then early_termination_scan rest T1
      else (T1, false)
  end.

(** [TableauResult], with the keyword arguments [construct] passes. *)
Record TableauResult : Type := mkTableauResult {
  satisfiable : bool;
  models : list ACrQModel;
  result_closed_branches : nat;
  result_open_branches : nat;
  total_nodes : nat;
  result_tableau : Tableau
}.

(** The values passed to the constructor of the result. *)
Inductive Value : Type :=
| VBool (b : bool)
| VNat (k : nat)
| VModels (ms : list ACrQModel)
| VTableau (T : Tableau).

(** The value [construct] passes to [TableauResult(...)] under a keyword:
    the call has the six keyword arguments below and no other. *)
Definition result_keyword (r : TableauResult) (keyword : string)
    : option Value :=
  if bool_decide (keyword = "satisfiable") then Some (VBool (satisfiable r))
  else if bool_decide (keyword = "models") then Some (VModels (models r))
  else if bool_decide (keyword = "closed_branches")
  then Some (VNat (result_closed_branches r))
  else if bool_decide (keyword = "open_branches")
  then Some (VNat (result_open_branches r))
  else if bool_decide (keyword = "total_nodes")
  then Some (VNat (total_nodes r))
  else if bool_decide (keyword = "tableau")
  then Some (VTableau (result_tableau r))
  else None.

(** What one pass through the body of the main loop ends with. *)
Inductive Signal : Set := Continue | Break.

(** [max_iterations = 1000] in [construct]. *)
Definition max_iterations : nat := 1000.

Section Engine.

(** The collaborators of [ACrQTableau] defined in modules that are absent:
    - [get_acrq_rule] of [acrq_ferguson_rules]; its second argument is the
      fresh-constant generator, given as the constant the [k]-th call
      returns, and the number it returns with the rule is the number of
      calls it made;
    - [Tableau.apply_rule], [Tableau.is_complete],
      [Tableau._select_optimal_branch] and [Tableau._extract_model] of
      [tableau], inherited by [ACrQTableau]. *)
Variable get_acrq_rule :
  SignedFormula → (nat → Term) → list Term → option (list Term)
  → option FergusonRule * nat.
Variable super_apply_rule : Tableau → TableauNode → nat → RuleInfo → Tableau.
Variable is_complete : Tableau → bool.
Variable _select_optimal_branch : Tableau → option nat.
Variable super_extract_model : Tableau → Branch → option Model.

(** The constant the [k]-th call of [fresh_constant_generator] returns when
    the counter stands at [counter]. *)
Definition fresh_constant (counter k : nat) : Term :=
  Constant ("c_" +:+ pretty (counter + 1 + k)).

(** [ACrQTableau._get_applicable_rule]. *)
Definition _get_applicable_rule (signed_formula : SignedFormula) (branch : nat)
    : M (option RuleInfo) :=
  T ← get_tableau;
  let existing_constants := ground_terms (the_branch T branch) in
  used_constants ←
    match sf_formula signed_formula with
    | RestrictedUniversalFormula _ _ _ =>
        match _universal_instantiations (the_branch T branch) with
        | Some inst => mret (Some (instantiations_get inst signed_formula))
        | None =>
            modify_tableau (update_branch branch ensure_universal_instantiations);;
            mret (Some [])
        end
    | _ => mret None
    end;
  let '(ferguson_rule, calls) :=
    get_acrq_rule signed_formula (fresh_constant (_constant_counter T))
      existing_constants used_constants in
  modify_tableau (λ T', set_constant_counter (_constant_counter T' + calls) T');;
  match ferguson_rule with
  | Some rule =>
      let rule_type := if is_branching rule then BETA else ALPHA in
      let priority := match rule_type with ALPHA => 10 | BETA => 20 end in
      mret (Some
        {| name := fr_name rule;
           rule_type := rule_type;
           priority := priority;
           complexity_cost := length (fr_conclusions rule);
           conclusions := fr_conclusions rule;
           instantiation_constant := fr_instantiation_constant rule |})
  | None =>
      if bool_decide (is_Some (llm_evaluator T))
         && is_atomic (sf_formula signed_formula)
      then _create_llm_evaluation_rule signed_formula branch
      else mret None
  end.

(** [ACrQTableau.apply_rule]. *)
Definition apply_rule (node : TableauNode) (branch : nat) (rule_info : RuleInfo)
    (T : Tableau) : Tableau :=
  if String.prefix "LLM-Eval" (name rule_info) then
    match conclusions rule_info with
    | [conclusion_set] =>
        let '(T1, returned) :=
          add_llm_conclusions node branch (name rule_info) conclusion_set T in
        if returned then T1
        else
          update_branch branch
            (mark_llm_evaluated
               (evaluation_key (sf_formula (node_formula node))))
            T1
    | _ => T
    end
  else super_apply_rule T node branch rule_info.

(** Modelled from the spec: [Tableau._get_prioritized_rules] is missing.
    Section 4.6, step 2: "scan the selected branch's nodes for applicable
    rules; yield a list sorted by (priority ascending, complexity_cost
    ascending, node_id ascending)"; the rule of a node is asked from the
    overridable [_get_applicable_rule], and the nodes whose rule was applied
    already are left out. *)
Fixpoint collect_rules (branch : nat) (nds : list TableauNode)
    : M (list (TableauNode * RuleInfo)) :=
  match nds with
  | [] => mret []
  | node :: rest =>
      rule_info ← _get_applicable_rule (node_formula node) branch;
      others ← collect_rules branch rest;
      mret (match rule_info with
            | Some r => (node, r) :: others
            | None => others
            end)
  end.

Definition pending_nodes (b : Branch) : list TableauNode :=
  List.filter (λ node, negb (bool_decide (node_id node ∈ processed b)))
    (branch_nodes b).

Definition _get_prioritized_rules (branch : nat)
    : M (list (TableauNode * RuleInfo)) :=
  T ← get_tableau;
  found ← collect_rules branch (pending_nodes (the_branch T branch));
  mret (sort_rules found).

(** [ACrQTableau._extract_model]. *)
Definition _extract_model (T : Tableau) (b : Branch) : option ACrQModel :=
  match super_extract_model T b with
  | None => None
  | Some base_model =>
      Some (ACrQModel_init (valuations base_model) (constants base_model))
  end.

(** The condition of the [while] loop of [construct]. *)
Definition loop_condition (iteration : nat) (T : Tableau) : bool :=
  bool_decide (open_branches T ≠ [])
  && negb (is_complete T)
  && bool_decide (iteration < max_iterations)
  && bool_decide (length (branches T) < max_branching_factor T).

(** The body of the loop, after [iteration += 1]. *)
Definition loop_body : M Signal :=
  T ← get_tableau;
  match _select_optimal_branch T with
  | None => mret Break
  | Some selected_branch =>
      applicable_rules ← _get_prioritized_rules selected_branch;
      match applicable_rules with
      | [] => mret Break
      | (node, rule_info) :: _ =>
          modify_tableau (apply_rule node selected_branch rule_info);;
          T1 ← get_tableau;
          if early_termination T1 && bool_decide (0 < length (open_branches T1))
          then
            match llm_evaluator T1 with
            | None => mret Continue
            | Some _ =>
                let '(T2, all_evaluated) :=
                  early_termination_scan (open_branches T1) T1 in
                modify_tableau (λ _, T2);;
                mret (if all_evaluated then Break else Continue)
            end
          else mret Continue
      end
  end.

(** The [while] loop.  [fuel] bounds the recursion; running out of it is
    the outcome [None].  The loop's own counter is [iteration]. *)
Fixpoint construct_loop (fuel iteration : nat) (w : World)
    : option (nat * World) :=
  match fuel with
  | 0 => None
  | S fuel' =>
      if loop_condition iteration (tableau w) then
        let iteration' := iteration + 1 in
        match loop_body w with
        | (Break, w') => Some (iteration', w')
        | (Continue, w') => construct_loop fuel' iteration' w'
        end
      else Some (iteration, w)
  end.

(** The loop of [construct] that extracts the models of the open branches. *)
Fixpoint extract_models (T : Tableau) (open : list nat)
    (models : list ACrQModel) : list ACrQModel :=
  match open with
  | [] => models
  | branch :: rest =>
      let b := the_branch T branch in
      if is_closed b then extract_models T rest models
      else
        match _extract_model T b with
        | Some model =>
            if bool_decide (model ∈ models) then extract_models T rest models
            else extract_models T rest (models ++ [model])
        | None => extract_models T rest models
        end
  end.

(** The [TableauResult] built after the loop. *)
Definition tableau_result (T : Tableau) : TableauResult :=
  let models := extract_models T (open_branches T) [] in
  {| satisfiable := bool_decide (0 < length models);
     models := models;
     result_closed_branches := length (closed_branches T);
     result_open_branches := length (open_branches T);
     total_nodes := length (nodes T);
     result_tableau := T |}.

(** [ACrQTableau.construct], run with a given amount of fuel: the result,
    the number of passes through the loop body and the oracle calls made. *)
Definition construct_with (fuel : nat) (T : Tableau)
    : option (TableauResult * nat * list (nat * Formula)) :=
  match construct_loop fuel 0 {| tableau := T; oracle_calls := [] |} with
  | Some (iterations, w) =>
      Some (tableau_result (tableau w), iterations, oracle_calls w)
  | None => None
  end.

(** [ACrQTableau.construct]. *)
Definition construct (T : Tableau) : option TableauResult :=
  match construct_with (S max_iterations) T with
  | Some (result, _, _) => Some result
  | None => None
  end.

End Engine.

(** ** Building a tableau *)

(** [ACrQTableau._extract_bilateral_pairs]. *)
Fixpoint _extract_bilateral_pairs (formula : Formula)
    (pairs : gmap string string) : gmap string string :=
  match formula with
  | BilateralPredicateFormula positive_name _ _ =>
      let pos_name := positive_name in
      let neg_name := positive_name +:+ "*" in
      <[neg_name := pos_name]> (<[pos_name := neg_name]> pairs)
  | CompoundFormula _ subformulas =>
      fold_left (λ acc sub, _extract_bilateral_pairs sub acc) subformulas pairs
  | RestrictedExistentialFormula _ restriction matrix
  | RestrictedUniversalFormula _ restriction matrix =>
      _extract_bilateral_pairs matrix
        (_extract_bilateral_pairs restriction pairs)
  | _ => pairs
  end.

(** [ACrQTableau._identify_bilateral_predicates]. *)
Definition _identify_bilateral_predicates (formulas : list SignedFormula)
    (pairs : gmap string string) : gmap string string :=
  fold_left (λ acc sf, _extract_bilateral_pairs (sf_formula sf) acc)
    formulas pairs.

(** [ACrQTableau._create_branch]: an [ACrQBranch] with a copy of the pairs
    known to the tableau. *)
Definition _create_branch (pairs : gmap string string) (id : nat) : Branch :=
  {| branch_id := id; branch_nodes := []; formula_index := [];
     is_closed := false; ground_terms := [];
     _universal_instantiations := None; _llm_evaluated := None;
     branch_bilateral_pairs := pairs; processed := [] |}.

(** Modelled from the spec: [Tableau.__init__] is missing.  It creates the
    first branch with [_create_branch], puts one root node per initial
    signed formula on it through [add_formula], and files the branch as open
    or closed.  The defaults are those of section 6: early termination on,
    and a cap on the number of branches that the caller of this model
    supplies. *)
Fixpoint initial_branch (formulas : list SignedFormula) (b : Branch)
    (next_id : nat) : Branch * list TableauNode :=
  match formulas with
  | [] => (b, [])
  | signed_formula :: rest =>
      let new_node :=
        {| node_id := next_id; node_formula := signed_formula;
           node_parent := None; node_rule := None |} in
      let '(b', others) :=
        initial_branch rest (add_formula b signed_formula new_node).1
          (S next_id) in
      (b', new_node :: others)
  end.

Definition Tableau_init (default_max_branching_factor : nat)
    (pairs : gmap string string) (evaluator : option Oracle)
    (initial_formulas : list SignedFormula) : Tableau :=
  let '(b, root_nodes) :=
    initial_branch initial_formulas (_create_branch pairs 0) 0 in
  {| branches := [b];
     open_branches := if is_closed b then [] else [0];
     closed_branches := if is_closed b then [0] else [];
     nodes := root_nodes; node_counter := length root_nodes;
     _constant_counter := 0; early_termination := true;
     max_branching_factor := default_max_branching_factor;
     bilateral_pairs := pairs; logic_system := "wKrQ";
     llm_evaluator := evaluator |}.

(** [ACrQTableau.__init__]: the pairs are still empty when the base
    constructor creates the first branch. *)
Definition ACrQTableau (default_max_branching_factor : nat)
    (initial_formulas : list SignedFormula) (llm_evaluator : option Oracle)
    : Tableau :=
  let T := Tableau_init default_max_branching_factor ∅ llm_evaluator
             initial_formulas in
  {| branches := branches T; open_branches := open_branches T;
     closed_branches := closed_branches T; nodes := nodes T;
     node_counter := node_counter T;
     _constant_counter := 0;
     early_termination :=
       match llm_evaluator with
       | Some _ => false
       | None => early_termination T
       end;
     max_branching_factor := max_branching_factor T;
     bilateral_pairs := _identify_bilateral_predicates initial_formulas ∅;
     logic_system := "ACrQ";
     llm_evaluator := llm_evaluator |}.

(** [tableau.max_branching_factor = k], the configuration knob of
    section 4.5. *)
Definition set_max_branching_factor (k : nat) (T : Tableau) : Tableau :=
  {| branches := branches T; open_branches := open_branches T;
     closed_branches := closed_branches T; nodes := nodes T;
     node_counter := node_counter T; _constant_counter := _constant_counter T;
     early_termination := early_termination T;
     max_branching_factor := k;
     bilateral_pairs := bilateral_pairs T; logic_system := logic_system T;
     llm_evaluator := llm_evaluator T |}.

(** ** The rule table of wKrQ *)

Module wkrq_rules.

(** [φ(c)]: the constant [c] put for the variable [x]; a quantifier that
    binds [x] again shields its matrix. *)
Fixpoint substitute (x : string) (c : Term) (φ : Formula) : Formula :=
  let on_term := λ u, match u with
                      | Var y => if bool_decide (y = x) then c else u
                      | Constant _ => u
                      end in
  match φ with
  | PropositionalAtom _ => φ
  | PredicateFormula p ts => PredicateFormula p (map on_term ts)
  | BilateralPredicateFormula p ts neg =>
      BilateralPredicateFormula p (map on_term ts) neg
  | CompoundFormula op subs => CompoundFormula op (map (substitute x c) subs)
  | RestrictedExistentialFormula y r b =>
      if bool_decide (y = x) then φ
      else RestrictedExistentialFormula y (substitute x c r) (substitute x c b)
  | RestrictedUniversalFormula y r b =>
      if bool_decide (y = x) then φ
      else RestrictedUniversalFormula y (substitute x c r) (substitute x c b)
  end.

Definition rule (rule_name : string) (branches : list (list SignedFormula))
    : option FergusonRule :=
  Some {| fr_name := rule_name; fr_conclusions := branches;
          fr_instantiation_constant := None |}.

(** The rows for a negation [s : ~φ]. *)
Definition negation_rule (s : Sign) (φ : Formula) : option FergusonRule :=
  match s with
  | signs.t => rule "t-negation" [[signs.f ▷ φ]]
  | signs.f => rule "f-negation" [[signs.t ▷ φ]]
  | signs.e => rule "e-negation" [[signs.e ▷ φ]]
  | signs.m => rule "m-negation" [[signs.n ▷ φ]]
  | signs.n => rule "n-negation" [[signs.m ▷ φ]]
  | signs.v => None
  end.

(** The rows [m : φ] and [n : φ] for a formula that is not a negation. *)
Definition meta_sign_rule (s : Sign) (φ : Formula) : option FergusonRule :=
  match s with
  | signs.m => rule "m-branching" [[signs.t ▷ φ]; [signs.f ▷ φ]]
  | signs.n => rule "n-branching" [[signs.f ▷ φ]; [signs.e ▷ φ]]
  | _ => None
  end.

(** The rows for the binary connectives under [t], [f] and [e]. *)
Definition connective_rule (s : Sign) (op : string) (φ ψ : Formula)
    : option FergusonRule :=
  if bool_decide (op = "&") then
    match s with
    | signs.t => rule "t-conjunction" [[signs.t ▷ φ; signs.t ▷ ψ]]
    | signs.f =>
        rule "f-conjunction"
          [[signs.f ▷ φ]; [signs.f ▷ ψ]; [signs.e ▷ φ; signs.e ▷ ψ]]
    | signs.e => rule "e-conjunction" [[signs.e ▷ φ]; [signs.e ▷ ψ]]
    | _ => None
    end
  else if bool_decide (op = "|") then
    match s with
    | signs.t =>
        rule "t-disjunction"
          [[signs.t ▷ φ]; [signs.t ▷ ψ]; [signs.e ▷ φ; signs.e ▷ ψ]]
    | signs.f => rule "f-disjunction" [[signs.f ▷ φ; signs.f ▷ ψ]]
    | signs.e => rule "e-disjunction" [[signs.e ▷ φ]; [signs.e ▷ ψ]]
    | _ => None
    end
  else if bool_decide (op = "->") then
    match s with
    | signs.t =>
        rule "t-implication"
          [[signs.f ▷ φ]; [signs.t ▷ ψ]; [signs.e ▷ φ; signs.e ▷ ψ]]
    | signs.f => rule "f-implication" [[signs.t ▷ φ; signs.f ▷ ψ]]
    | signs.e => rule "e-implication" [[signs.e ▷ φ]; [signs.e ▷ ψ]]
    | _ => None
    end
  else None.

(** The least constant of [existing], by name, that is not in [used]
    (section 4.5: "lexicographic on constant names for determinism"). *)
Definition least_unused (existing : list Term) (used : option (list Term))
    : option Term :=
  let unused :=
    List.filter (λ c, negb (bool_decide (c ∈ default [] used))) existing in
  fold_right
    (λ c best,
       match best with
       | None => Some c
       | Some d => if String.leb (term_str c) (term_str d) then Some c else Some d
       end)
    None unused.

(** Modelled from the spec: [wkrq_rules.get_applicable_rule] is missing.  The
    rows are those of the table of section 4.2 that state their conclusions:
    the negations, the connectives, the two meta-signs, the quantifiers that
    instantiate with a fresh constant ([t] on an existential, [f] on a
    universal) and those that reuse a constant of the branch ([t] on a
    universal, [f] on an existential).  The table leaves the rows for [e] on
    a quantifier open; they are absent here.  The number returned is the
    number of calls made to the fresh-constant generator. *)
Definition get_applicable_rule (signed_formula : SignedFormula)
    (fresh : nat → Term) (existing : list Term) (used : option (list Term))
    : option FergusonRule * nat :=
  let s := sf_sign signed_formula in
  match sf_formula signed_formula with
  | CompoundFormula op [φ] =>
      if bool_decide (op = "~") then (negation_rule s φ, 0) else (None, 0)
  | CompoundFormula op [φ; ψ] =>
      match s with
      | signs.m | signs.n => (meta_sign_rule s (sf_formula signed_formula), 0)
      | _ => (connective_rule s op φ ψ, 0)
      end
  | RestrictedExistentialFormula x φ ψ =>
      match s with
      | signs.t =>
          let c := fresh 0 in
          (Some {| fr_name := "t-restricted-exists";
                   fr_conclusions :=
                     [[signs.t ▷ substitute x c φ; signs.t ▷ substitute x c ψ]];
                   fr_instantiation_constant := None |}, 1)
      | signs.f =>
          match least_unused existing used with
          | Some c =>
              (Some {| fr_name := "f-restricted-exists";
                       fr_conclusions :=
                         [[signs.f ▷ substitute x c φ]; [signs.f ▷ substitute x c ψ]];
                       fr_instantiation_constant := Some c |}, 0)
          | None => (None, 0)
          end
      | signs.m | signs.n => (meta_sign_rule s (sf_formula signed_formula), 0)
      | _ => (None, 0)
      end
  | RestrictedUniversalFormula x φ ψ =>
      match s with
      | signs.t =>
          match least_unused existing used with
          | Some c =>
              (Some {| fr_name := "t-restricted-forall";
                       fr_conclusions :=
                         [[signs.f ▷ substitute x c φ]; [signs.t ▷ substitute x c ψ]];
                       fr_instantiation_constant := Some c |}, 0)
          | None => (None, 0)
          end
      | signs.f =>
          let c := fresh 0 in
          (Some {| fr_name := "f-restricted-forall";
                   fr_conclusions :=
                     [[signs.t ▷ substitute x c φ; signs.f ▷ substitute x c ψ]];
                   fr_instantiation_constant := None |}, 1)
      | signs.m | signs.n => (meta_sign_rule s (sf_formula signed_formula), 0)
      | _ => (None, 0)
      end
  | CompoundFormula _ _ => (None, 0)
  | _ => (meta_sign_rule s (sf_formula signed_formula), 0)
  end.

End wkrq_rules.

(** ** The inherited engine, as the specification describes it *)

Module base_tableau.

(** Modelled from the spec: [acrq_ferguson_rules.get_acrq_rule] is missing.
    Section 4.3: [~p(ts)] is rewritten to the bilateral dual [p*(ts)] under
    the same sign; the selector "consults the bilateral rules first and
    falls through to section 4.2 for logical connectives and quantifiers".
    No other rule for a negation is given for ACrQ. *)
Definition get_acrq_rule (signed_formula : SignedFormula) (fresh : nat → Term)
    (existing : list Term) (used : option (list Term))
    : option FergusonRule * nat :=
  match sf_formula signed_formula with
  | CompoundFormula op [φ] =>
      if bool_decide (op = "~") && is_predicate φ then
        (Some {| fr_name := "bilateral-negation";
                 fr_conclusions :=
                   [[sf_sign signed_formula ▷ dual_formula φ]];
                 fr_instantiation_constant := None |}, 0)
      else (None, 0)
  | _ => wkrq_rules.get_applicable_rule signed_formula fresh existing used
  end.

(** Is a rule waiting on this node of the branch, and of which type?  A
    logical rule of the table, or else the oracle rule for an atom that has
    not been evaluated yet. *)
Definition pending_rule_type (T : Tableau) (b : Branch) (node : TableauNode)
    : option RuleType :=
  let signed_formula := node_formula node in
  let used :=
    match sf_formula signed_formula with
    | RestrictedUniversalFormula _ _ _ =>
        Some (instantiations_get (default [] (_universal_instantiations b))
                signed_formula)
    | _ => None
    end in
  match (get_acrq_rule signed_formula (fresh_constant (_constant_counter T))
           (ground_terms b) used).1 with
  | Some r => Some (if is_branching r then BETA else ALPHA)
  | None =>
      if bool_decide (is_Some (llm_evaluator T))
         && is_atomic (sf_formula signed_formula)
         && negb (llm_evaluated_mem (evaluation_key (sf_formula signed_formula)) b)
      then Some ALPHA
      else None
  end.

(** Modelled from the spec: [Tableau.is_complete] is missing.  Section 4.6,
    step 4 (a): "no open branch has an applicable rule". *)
Definition is_complete (T : Tableau) : bool :=
  forallb
    (λ id,
       forallb (λ node, negb (bool_decide (is_Some (pending_rule_type T (the_branch T id) node))))
         (pending_nodes (the_branch T id)))
    (open_branches T).

(** The number of α-rules waiting on a branch. *)
Definition unapplied_alpha (T : Tableau) (id : nat) : nat :=
  length
    (List.filter
       (λ node,
          match pending_rule_type T (the_branch T id) node with
          | Some ALPHA => true
          | _ => false
          end)
       (pending_nodes (the_branch T id))).

(** Modelled from the spec: [Tableau._select_optimal_branch] is missing.
    Section 4.6, step 1: "pick an open branch.  The default policy prefers
    branches with the fewest unapplied α-rules first, breaking ties by
    smaller branch id". *)
Definition _select_optimal_branch (T : Tableau) : option nat :=
  fold_right
    (λ id best,
       match best with
       | None => Some id
       | Some other =>
           let ki := unapplied_alpha T id in
           let ko := unapplied_alpha T other in
           if (ki <? ko)%nat || ((ki =? ko)%nat && (id <=? other)%nat)
           then Some id else Some other
       end)
    None (open_branches T).

(** Bookkeeping once a rule is applied to a node: a rule that instantiates
    with a constant of the branch records the constant (section 4.5,
    "used ← used ∪ {c}") and stays applicable; any other node is done. *)
Definition mark_applied (node : TableauNode) (rule_info : RuleInfo) (b : Branch)
    : Branch :=
  let inst := default [] (_universal_instantiations b) in
  {| branch_id := branch_id b; branch_nodes := branch_nodes b;
     formula_index := formula_index b; is_closed := is_closed b;
     ground_terms := ground_terms b;
     _universal_instantiations :=
       match instantiation_constant rule_info with
       | Some c =>
           Some ((node_formula node, c :: instantiations_get inst (node_formula node))
                 :: inst)
       | None => _universal_instantiations b
       end;
     _llm_evaluated := _llm_evaluated b;
     branch_bilateral_pairs := branch_bilateral_pairs b;
     processed :=
       match instantiation_constant rule_info with
       | Some _ => processed b
       | None => processed b ++ [node_id node]
       end |}.

(** One conclusion list appended to a branch: a new node per signed formula,
    closure checked at every insertion. *)
Fixpoint extend_branch (node : TableauNode) (rule_name : string)
    (conclusion_set : list SignedFormula) (b : Branch) (T : Tableau)
    : Branch * Tableau :=
  match conclusion_set with
  | [] => (b, T)
  | signed_formula :: rest =>
      let new_node :=
        {| node_id := node_counter T; node_formula := signed_formula;
           node_parent := Some (node_id node);
           node_rule := Some rule_name |} in
      let '(b', _) := add_formula b signed_formula new_node in
      extend_branch node rule_name rest b' (append_node new_node T)
  end.

Definition with_branch_id (id : nat) (b : Branch) : Branch :=
  {| branch_id := id; branch_nodes := branch_nodes b;
     formula_index := formula_index b; is_closed := is_closed b;
     ground_terms := ground_terms b;
     _universal_instantiations := _universal_instantiations b;
     _llm_evaluated := _llm_evaluated b;
     branch_bilateral_pairs := branch_bilateral_pairs b;
     processed := processed b |}.

Definition next_branch_id (T : Tableau) : nat :=
  fold_right (λ b k, Nat.max (S (branch_id b)) k) 0 (branches T).

(** A new branch object entered into the tableau, as open or as closed. *)
Definition install_branch (b : Branch) (T : Tableau) : Tableau :=
  {| branches := branches T ++ [b];
     open_branches :=
       if is_closed b then open_branches T else open_branches T ++ [branch_id b];
     closed_branches :=
       if is_closed b then closed_branches T ++ [branch_id b]
       else closed_branches T;
     nodes := nodes T; node_counter := node_counter T;
     _constant_counter := _constant_counter T;
     early_termination := early_termination T;
     max_branching_factor := max_branching_factor T;
     bilateral_pairs := bilateral_pairs T; logic_system := logic_system T;
     llm_evaluator := llm_evaluator T |}.

(** The branch object taken out of the tableau. *)
Definition drop_branch (id : nat) (T : Tableau) : Tableau :=
  {| branches :=
       List.filter (λ b, negb (bool_decide (branch_id b = id))) (branches T);
     open_branches := remove_first id (open_branches T);
     closed_branches := closed_branches T;
     nodes := nodes T; node_counter := node_counter T;
     _constant_counter := _constant_counter T;
     early_termination := early_termination T;
     max_branching_factor := max_branching_factor T;
     bilateral_pairs := bilateral_pairs T; logic_system := logic_system T;
     llm_evaluator := llm_evaluator T |}.

(** The children of a β-rule, one per conclusion list, each a copy of the
    parent extended by its list. *)
Fixpoint split_branch (node : TableauNode) (rule_name : string)
    (branches_to_add : list (list SignedFormula)) (parent : Branch)
    (T : Tableau) : Tableau :=
  match branches_to_add with
  | [] => T
  | conclusion_set :: rest =>
      let child := with_branch_id (next_branch_id T) parent in
      let '(child', T1) := extend_branch node rule_name conclusion_set child T in
      split_branch node rule_name rest parent (install_branch child' T1)
  end.

(** Modelled from the spec: [Tableau.apply_rule] is missing.  Section 4.6,
    step 3: "α-rules append to the branch; β-rules replace the branch with k
    children, each sharing the parent's prefix and carrying an independent
    copy of the formula index and memo sets.  Closure is checked at every
    insertion". *)
Definition apply_rule (T : Tableau) (node : TableauNode) (branch : nat)
    (rule_info : RuleInfo) : Tableau :=
  let parent := mark_applied node rule_info (the_branch T branch) in
  match conclusions rule_info with
  | [] => update_branch branch (λ _, parent) T
  | [conclusion_set] =>
      let '(b', T1) :=
        extend_branch node (name rule_info) conclusion_set parent T in
      let T2 := update_branch branch (λ _, b') T1 in
      if is_closed b' then close_branch branch T2 else T2
  | several =>
      split_branch node (name rule_info) several parent (drop_branch branch T)
  end.

Definition sign_value (s : Sign) : option TruthValue :=
  match s with
  | signs.t => Some TRUE
  | signs.f => Some FALSE
  | signs.e => Some UNDEFINED
  | _ => None
  end.

(** Modelled from the spec: [Tableau._extract_model] is missing.  Section
    4.8: an atom on the branch is [TRUE], [FALSE] or [UNDEFINED] as it occurs
    under [t], [f] or [e], and [FALSE] by default; the domain is the set of
    ground terms of the branch.  Every open branch yields a model. *)
Definition _extract_model (T : Tableau) (b : Branch) : option Model :=
  Some
    {| valuations :=
         fold_left
           (λ acc node,
              let φ := sf_formula (node_formula node) in
              if is_atomic φ then
                match sign_value (sf_sign (node_formula node)) with
                | Some value => <[formula_str φ := value]> acc
                | None =>
                    match acc !! formula_str φ with
                    | Some _ => acc
                    | None => <[formula_str φ := FALSE]> acc
                    end
                end
              else acc)
           (branch_nodes b) ∅;
       constants := list_to_set (map term_str (ground_terms b)) |}.

(** The default of [max_branching_factor] used in the examples. *)
Definition default_max_branching_factor : nat := 1000.

End base_tableau.

(** ** Examples *)

Module examples.

Definition P_a : Formula := PredicateFormula "P" [Constant "a"].
Definition Q_a : Formula := PredicateFormula "Q" [Constant "a"].

(** An oracle with positive evidence for every atom and none against it:
    [<TRUE, FALSE>] for [p(ts)], hence [<FALSE, TRUE>] for [p*(ts)]. *)
Definition evidence_oracle : Oracle :=
  λ φ, match φ with
       | BilateralPredicateFormula _ _ true =>
           Some {| positive := FALSE; negative := TRUE |}
       | _ => Some {| positive := TRUE; negative := FALSE |}
       end.



(** The number of calls made to the oracle for a formula on a branch. *)
Definition calls_for (branch : nat) (φ : Formula)
    (calls : list (nat * Formula)) : nat :=
  length (List.filter (λ call, bool_decide (call = (branch, φ))) calls).

(** [construct] on top of the inherited engine of [base_tableau]. *)
Definition base_construct_with (fuel : nat) (T : Tableau)
    : option (TableauResult * nat * list (nat * Formula)) :=
  construct_with base_tableau.get_acrq_rule base_tableau.apply_rule
    base_tableau.is_complete base_tableau._select_optimal_branch
    base_tableau._extract_model fuel T.

Definition base_construct (T : Tableau) : option TableauResult :=
  construct base_tableau.get_acrq_rule base_tableau.apply_rule
    base_tableau.is_complete base_tableau._select_optimal_branch
    base_tableau._extract_model T.

End examples.

(** ** [TheoryManager.check_satisfiability] *)

Module theory_manager.

(** [Statement]: the fields [check_satisfiability] reads. *)
Record Statement : Set := mkStatement {
  id : string;
  natural_language : string;
  formula : option string;
  sign : string;
  is_inferred : bool
}.

Record InformationState : Set := mkInformationState {
  predicate : string;
  state : string;
  evidence : list string;
  info_branch_id : option nat
}.

(** [sign_map.get(stmt.sign, t)] with [sign_map = {"t": t, "f": f, "e": e}]. *)
Definition sign_map_get (s : string) : Sign :=
  if bool_decide (s = "t") then signs.t
  else if bool_decide (s = "f") then signs.f
  else if bool_decide (s = "e") then signs.e
  else signs.t.

(** What a call of [check_satisfiability] does: the pair it returns and the
    list of signed formulas it builds an [ACrQTableau] from, if it builds
    one. *)
Record Check : Type := mkCheck {
  returned : bool * list InformationState;
  tableau_built : option (list SignedFormula)
}.

Section CheckSatisfiability.

(** The collaborators: the parser of the absent module [acrq_parser]
    ([None] when it raises), and the tableau class that [theory_manager]
    imports from the absent module [tableau], of which the method uses the
    verdict [result.satisfiable] and the finished tableau.  The analysis
    [_analyze_information_states] reads the layout of that tableau
    ([tableau.branches], [branch.node_ids], [tableau.nodes]) and is kept as
    a function of it. *)
Variable parse_acrq_formula : string → option Formula.
Variable TableauObject : Type.
Variable build_and_construct :
  list SignedFormula → option Oracle → bool * TableauObject.
Variable _analyze_information_states : TableauObject → list InformationState.

(** [stmt.formula and not stmt.formula.startswith("//")]. *)
Definition has_formula (stmt : Statement) : option string :=
  match formula stmt with
  | Some text =>
      if bool_decide (text ≠ "") && negb (String.prefix "//" text)
      then Some text else None
  | None => None
  end.

(** The first loop of [check_satisfiability], over
    [self.statements.values()]. *)
Fixpoint collect_formulas (stmts : list Statement)
    (formulas : list SignedFormula) : list SignedFormula :=
  match stmts with
  | [] => formulas
  | stmt :: rest =>
      match has_formula stmt with
      | Some text =>
          match parse_acrq_formula text with
          | Some parsed =>
              let sign_obj := sign_map_get (sign stmt) in
              collect_formulas rest (formulas ++ [sign_obj ▷ parsed])
          | None => collect_formulas rest formulas
          end
      | None => collect_formulas rest formulas
      end
  end.

(** [TheoryManager.check_satisfiability].  The timing fields and the
    statements that [_store_llm_evidence_from_tableau] adds after the
    tableau is finished are no part of what the method returns and are left
    out. *)
Definition check_satisfiability (statements : list Statement)
    (llm_evaluator : option Oracle) : Check :=
  let formulas := collect_formulas statements [] in
  match formulas with
  | [] => {| returned := (true, []); tableau_built := None |}
  | _ =>
      let '(verdict, finished) := build_and_construct formulas llm_evaluator in
      let info_states := _analyze_information_states finished in
      {| returned := (verdict, info_states); tableau_built := Some formulas |}
  end.

(** The statement of the claim about this method, in its own words: a
    statement is passed on when it is not a comment and parses. *)
Definition usable (stmt : Statement) : option SignedFormula :=
  match formula stmt with
  | Some text =>
      if String.prefix "//" text then None
      else
        match parse_acrq_formula text with
        | Some parsed => Some (sign_map_get (sign stmt) ▷ parsed)
        | None => None
        end
  | None => None
  end.

End CheckSatisfiability.

(** A toy parser for the examples: it knows the propositional atoms [P] and
    [Q] and rejects every other text. *)
Definition toy_parser (text : string) : option Formula :=
  if bool_decide (text = "P") then Some (PropositionalAtom "P")
  else if bool_decide (text = "Q") then Some (PropositionalAtom "Q")
  else None.

End theory_manager.
(** ** Vocabulary for the further properties *)

(** The [used_constants] that [_get_applicable_rule] hands to the rule
    table: for a universal the constants recorded for it on the branch (none
    when the branch has no record yet), for any other formula [None]. *)
Definition used_constants (signed_formula : SignedFormula) (b : Branch)
    : option (list Term) :=
  match sf_formula signed_formula with
  | RestrictedUniversalFormula _ _ _ =>
      match _universal_instantiations b with
      | Some inst => Some (instantiations_get inst signed_formula)
      | None => Some []
      end
  | _ => None
  end.

(** Two states of a tableau with the same proof tree: the same nodes, the
    same open and closed lists, and on every branch the same nodes, index,
    closure flag, constants, applied nodes and evaluated atoms.  Only the
    constant counter and the lazily created attributes of a branch may
    differ. *)
Definition same_proof_tree (T T' : Tableau) : Prop :=
  nodes T' = nodes T
  ∧ node_counter T' = node_counter T
  ∧ open_branches T' = open_branches T
  ∧ closed_branches T' = closed_branches T
  ∧ llm_evaluator T' = llm_evaluator T
  ∧ early_termination T' = early_termination T
  ∧ max_branching_factor T' = max_branching_factor T
  ∧ map branch_id (branches T') = map branch_id (branches T)
  ∧ ∀ id,
      let b' := the_branch T' id in
      let b := the_branch T id in
      branch_nodes b' = branch_nodes b
      ∧ formula_index b' = formula_index b
      ∧ is_closed b' = is_closed b
      ∧ ground_terms b' = ground_terms b
      ∧ processed b' = processed b
      ∧ ∀ key, llm_evaluated_mem key b' = llm_evaluated_mem key b.

(** The node that [apply_rule] creates for the [i]-th conclusion of an
    LLM-Eval rule applied to [node] when the node counter stands at
    [counter]. *)
Definition conclusion_node (node : TableauNode) (rule_name : string)
    (counter i : nat) (signed_formula : SignedFormula) : TableauNode :=
  {| node_id := counter + i; node_formula := signed_formula;
     node_parent := Some (node_id node); node_rule := Some rule_name |}.

(** ** Objects for the examples of the further properties *)

Module oracle_example.

(** The root node of the tableau of [[t ▷ P(a)]]. *)
Definition root : TableauNode :=
  {| node_id := 0; node_formula := signs.t ▷ examples.P_a;
     node_parent := None; node_rule := None |}.

(** The tableau of [[t ▷ P(a)]] with the oracle that has positive evidence
    for every atom. *)
Definition start : Tableau :=
  ACrQTableau 1000 [signs.t ▷ examples.P_a] (Some examples.evidence_oracle).

(** The conclusions that oracle gives for [P(a)]. *)
Definition verdict : list SignedFormula :=
  [signs.t ▷ examples.P_a;
   signs.f ▷ BilateralPredicateFormula "P" [Constant "a"] true].

(** The rule [_create_llm_evaluation_rule] builds from them. *)
Definition rule : RuleInfo :=
  {| name := "LLM-Eval(P(a))"; rule_type := ALPHA; priority := 5;
     complexity_cost := 2; conclusions := [verdict];
     instantiation_constant := None |}.

End oracle_example.

(** The index of a branch agrees with the positions of its nodes: the node
    that [self.nodes[node_id]] yields for an entry of the index is the node
    that was indexed. *)
Definition index_by_position (b : Branch) : Prop :=
  ∀ entry, entry ∈ formula_index b
           → ∃ node, branch_nodes b !! entry.2 = Some node
                     ∧ node_formula node = entry.1.

Module split_example.

Definition P_a : Formula := BilateralPredicateFormula "P" [Constant "a"] false.
Definition P_star_a : Formula :=
  BilateralPredicateFormula "P" [Constant "a"] true.

(** The tableau of [[t ▷ (A ∨ P*(a)); t ▷ (P(a) ∨ B)]]. *)
Definition start : Tableau :=
  ACrQTableau 1000
    [signs.t ▷ CompoundFormula "|" [PropositionalAtom "A"; P_star_a];
     signs.t ▷ CompoundFormula "|" [P_a; PropositionalAtom "B"]]
    None.

End split_example.

(** * Properties *)

(** ** Formulas *)

Lemma append_star_neq (p : string) : p ≠ p +:+ "*".
Proof.
  induction p as [|c p IH]; simpl; [discriminate|].
  intros H. injection H as H. exact (IH H).
Qed.

Lemma formula_eqb_refl (φ : Formula) : formula_eqb φ φ = true.
Proof. unfold formula_eqb. by apply bool_decide_eq_true. Qed.

(** A bilateral predicate and its dual are different keys of the index. *)
Lemma bilateral_dual_distinct (p : string) (ts : list Term) :
  formula_eqb (BilateralPredicateFormula p ts false)
    (BilateralPredicateFormula p ts true) = false
  ∧ formula_eqb (BilateralPredicateFormula p ts true)
      (BilateralPredicateFormula p ts false) = false.
Proof.
  unfold formula_eqb. split; apply bool_decide_eq_false; simpl; discriminate.
Qed.

(** So are a plain predicate and its starred namesake. *)
Lemma starred_predicate_distinct (p : string) (ts : list Term) :
  formula_eqb (PredicateFormula p ts) (PredicateFormula (p +:+ "*") ts) = false.
Proof.
  unfold formula_eqb. apply bool_decide_eq_false. simpl. intros H.
  injection H as H. exact (append_star_neq p H).
Qed.

(** ** Closure detection *)

Lemma index_lookup_nonempty (b : Branch) (s : Sign) (φ : Formula) :
  0 < length (index_lookup b s φ)
  ↔ ∃ entry, entry ∈ formula_index b ∧ sf_sign entry.1 = s
             ∧ formula_eqb (sf_formula entry.1) φ = true.
Proof.
  unfold index_lookup. rewrite length_map. split.
  - intros Hlen.
    destruct (filter _ (formula_index b)) as [|entry rest] eqn:Hf;
      [simpl in Hlen; lia|].
    assert (Hin : entry ∈ filter
      (λ entry, sf_sign entry.1 = s ∧ formula_eqb (sf_formula entry.1) φ = true)
      (formula_index b)) by (rewrite Hf; left).
    apply list_elem_of_filter in Hin as [[Hs He] Hin]. eauto.
  - intros (entry & Hin & Hs & He).
    assert (Hin' : entry ∈ filter
      (λ entry, sf_sign entry.1 = s ∧ formula_eqb (sf_formula entry.1) φ = true)
      (formula_index b)) by (apply list_elem_of_filter; auto).
    destruct (filter _ (formula_index b)); [inversion Hin' | simpl; lia].
Qed.

(** The whitelist branch of the scan is never entered: its guard asks for
    [sign = t] and [other_sign = t] inside a test that has already
    established [other_sign ≠ sign]. *)
Lemma contradiction_scan_plain (b : Branch) (φ : Formula) (s : Sign)
    (others : list Sign) :
  contradiction_scan b φ s others
  = Some (existsb
            (λ o, bool_decide (o ≠ s)
                  && bool_decide (0 < length (index_lookup b o φ)))
            others).
Proof.
  induction others as [|o rest IH]; simpl; [done|].
  destruct (bool_decide (o ≠ s)
            && bool_decide (0 < length (index_lookup b o φ))) eqn:Hc;
    simpl; [|done].
  destruct (bool_decide (s = signs.t) && bool_decide (o = signs.t)) eqn:Hg;
    [|done].
  exfalso.
  apply andb_true_iff in Hc as [Hne _]. apply andb_true_iff in Hg as [Hs Ho].
  apply bool_decide_eq_true in Hne, Hs, Ho. congruence.
Qed.

Lemma _check_contradiction_plain (b : Branch) (sf : SignedFormula) :
  _check_contradiction b sf = Some (distinct_sign_check b sf).
Proof. apply contradiction_scan_plain. Qed.

Lemma distinct_sign_check_spec (b : Branch) (sf : SignedFormula) :
  distinct_sign_check b sf = true ↔ distinct_sign_conflict b sf.
Proof.
  unfold distinct_sign_check, distinct_sign_conflict.
  rewrite existsb_exists. split.
  - intros (o & Hin & Hc). apply andb_true_iff in Hc as [Hne Hlen].
    apply bool_decide_eq_true in Hne, Hlen.
    exists o. split; [by apply list_elem_of_In|]. split; [done|].
    by apply index_lookup_nonempty.
  - intros (o & Hin & Hne & Hex). exists o. split; [by apply list_elem_of_In|].
    apply andb_true_iff. split; apply bool_decide_eq_true; [done|].
    by apply index_lookup_nonempty.
Qed.

Lemma contradiction_verdict_plain (b : Branch) (sf : SignedFormula) :
  contradiction_verdict b sf = distinct_sign_check b sf.
Proof. unfold contradiction_verdict. by rewrite _check_contradiction_plain. Qed.

Lemma check_contradiction_is_plain_helper (b : Branch) (sf : SignedFormula) :
  (distinct_sign_conflict b sf → _check_contradiction b sf = Some true)
  ∧ (_check_contradiction b sf = Some true → distinct_sign_conflict b sf).
Proof.
  rewrite _check_contradiction_plain, <- distinct_sign_check_spec.
  split; [by intros -> | by intros [= ->]].
Qed.

(** C9.  [_check_contradiction] answers [True] exactly when the index holds
    the identical formula under a sign of [{t, f, e}] other than the new
    one; it never raises; the guard of its glut whitelist is unsatisfiable,
    so the method equals the plain distinct-sign test whatever
    [_is_bilateral_glut] would say; and a glut is tolerated only because
    [p(ts)] and [p*(ts)] are different keys: with [t ▷ p(ts)] alone in the
    index, adding [t ▷ p*(ts)] finds nothing. *)
Theorem check_contradiction_is_distinct_sign_test :
  (∀ (b : Branch) (new_formula : SignedFormula),
     (_check_contradiction b new_formula = Some true
      ↔ distinct_sign_conflict b new_formula)
     ∧ _check_contradiction b new_formula
       = Some (distinct_sign_check b new_formula))
  ∧ (∀ sign other_sign : Sign,
       bool_decide (other_sign ≠ sign)
       && (bool_decide (sign = signs.t) && bool_decide (other_sign = signs.t))
       = false)
  ∧ (∀ (p : string) (ts : list Term) (b : Branch) (k : nat),
       formula_index b = [(signs.t ▷ BilateralPredicateFormula p ts false, k)]
       → formula_eqb (BilateralPredicateFormula p ts false)
           (BilateralPredicateFormula p ts true) = false
         ∧ index_lookup b signs.t (BilateralPredicateFormula p ts true) = []
         ∧ _check_contradiction b (signs.t ▷ BilateralPredicateFormula p ts true)
           = Some false).
Proof.
  split; [|split].
  - intros b sf. split; [|apply _check_contradiction_plain].
    destruct (check_contradiction_is_plain_helper b sf) as [H1 H2].
    split; assumption.
  - intros s o. destruct s, o; reflexivity.
  - intros p ts b k Hidx.
    destruct (bilateral_dual_distinct p ts) as [Hd _].
    split; [done|].
    assert (Hl : ∀ s, index_lookup b s (BilateralPredicateFormula p ts true) = []).
    { intros s. unfold index_lookup. rewrite Hidx. simpl.
      rewrite filter_cons_False; [done|]. simpl. rewrite Hd. intros [_ ?]; done. }
    split; [apply Hl|].
    rewrite _check_contradiction_plain. unfold distinct_sign_check. simpl.
    rewrite !Hl. reflexivity.
Qed.

(** ** The rule table *)

(** C2.  The rule for [t ▷ (φ ∨ ψ)] has exactly the three conclusion branches
    [[t ▷ φ]], [[t ▷ ψ]] and [[e ▷ φ; e ▷ ψ]], the rule for [t ▷ (φ → ψ)]
    exactly [[f ▷ φ]], [[t ▷ ψ]] and [[e ▷ φ; e ▷ ψ]]; both contain the
    branch that makes the two sides undefined. *)
Theorem t_disjunction_t_implication_three_branches (φ ψ : Formula)
    (fresh : nat → Term) (existing : list Term) (used : option (list Term)) :
  (∃ r, (wkrq_rules.get_applicable_rule
           (signs.t ▷ CompoundFormula "|" [φ; ψ]) fresh existing used).1 = Some r
        ∧ fr_conclusions r
          = [[signs.t ▷ φ]; [signs.t ▷ ψ]; [signs.e ▷ φ; signs.e ▷ ψ]]
        ∧ [signs.e ▷ φ; signs.e ▷ ψ] ∈ fr_conclusions r)
  ∧ (∃ r, (wkrq_rules.get_applicable_rule
             (signs.t ▷ CompoundFormula "->" [φ; ψ]) fresh existing used).1 = Some r
          ∧ fr_conclusions r
            = [[signs.f ▷ φ]; [signs.t ▷ ψ]; [signs.e ▷ φ; signs.e ▷ ψ]]
          ∧ [signs.e ▷ φ; signs.e ▷ ψ] ∈ fr_conclusions r).
Proof.
  split; eexists; (split; [reflexivity|]); (split; [reflexivity|]);
    simpl; set_solver.
Qed.

(** The negation rows for the two meta-signs swap them. *)
Lemma meta_sign_negation_swaps (φ : Formula) (fresh : nat → Term)
    (existing : list Term) (used : option (list Term)) :
  (wkrq_rules.get_applicable_rule (signs.m ▷ CompoundFormula "~" [φ])
     fresh existing used).1
  = Some {| fr_name := "m-negation"; fr_conclusions := [[signs.n ▷ φ]];
            fr_instantiation_constant := None |}
  ∧ (wkrq_rules.get_applicable_rule (signs.n ▷ CompoundFormula "~" [φ])
       fresh existing used).1
    = Some {| fr_name := "n-negation"; fr_conclusions := [[signs.m ▷ φ]];
              fr_instantiation_constant := None |}.
Proof. split; reflexivity. Qed.

(** A new formula under [m], [n] or [v] is reported as a contradiction by the
    ACrQ probe as soon as the same formula is indexed under [t], [f] or
    [e]: the loop compares [other_sign] with the new sign but never asks
    whether the new sign is itself one of [t], [f], [e]. *)
Lemma meta_sign_reported_as_contradiction (b : Branch) (φ : Formula)
    (s o : Sign) (k : nat) :
  s ∈ [signs.m; signs.n; signs.v] → o ∈ [signs.t; signs.f; signs.e]
  → (o ▷ φ, k) ∈ formula_index b
  → _check_contradiction b (s ▷ φ) = Some true.
Proof.
  intros Hs Ho Hin.
  destruct (check_contradiction_is_plain_helper b (s ▷ φ)) as [H _].
  apply H. exists o. split; [done|]. split.
  - simpl. set_unfold. intuition congruence.
  - exists (o ▷ φ, k). simpl. auto using formula_eqb_refl.
Qed.

(** C3.  The code at the failing input.  With [f ▷ P] on an ACrQ branch, the
    probe reports a contradiction for the new formula [n ▷ P] and for
    [m ▷ P], and the branch built from [[f ▷ P; n ▷ P]] is closed, although
    [n] and [m] are not closure signs; in the other order, [[n ▷ P; f ▷ P]],
    the branch stays open. *)
Theorem meta_sign_closes_acrq_branch :
  let P := PredicateFormula "P" [] in
  let b := the_branch (ACrQTableau 1000 [signs.f ▷ P] None) 0 in
  _check_contradiction b (signs.n ▷ P) = Some true
  ∧ _check_contradiction b (signs.m ▷ P) = Some true
  ∧ is_closed (the_branch (ACrQTableau 1000 [signs.f ▷ P; signs.n ▷ P] None) 0)
    = true
  ∧ open_branches (ACrQTableau 1000 [signs.f ▷ P; signs.n ▷ P] None) = []
  ∧ is_closed (the_branch (ACrQTableau 1000 [signs.n ▷ P; signs.f ▷ P] None) 0)
    = false.
Proof. vm_compute. repeat split; reflexivity. Qed.

(** ** [check_satisfiability] *)

Section CheckSatisfiabilityFacts.

Variable parse_acrq_formula : string → option Formula.
Variable TableauObject : Type.
Variable build_and_construct :
  list SignedFormula → option Oracle → bool * TableauObject.
Variable _analyze_information_states :
  TableauObject → list theory_manager.InformationState.

(** The parser rejects the empty text. *)
Hypothesis parse_empty : parse_acrq_formula "" = None.

Lemma collect_formulas_usable (stmts : list theory_manager.Statement)
    (formulas : list SignedFormula) :
  theory_manager.collect_formulas parse_acrq_formula stmts formulas
  = formulas ++ omap (theory_manager.usable parse_acrq_formula) stmts.
Proof.
  revert formulas.
  induction stmts as [|stmt rest IH]; intros formulas; simpl;
    [by rewrite app_nil_r|].
  unfold theory_manager.has_formula, theory_manager.usable.
  destruct (theory_manager.formula stmt) as [text|]; [|apply IH].
  destruct (decide (text = "")) as [->|Hne].
  - simpl. rewrite parse_empty. apply IH.
  - rewrite (bool_decide_eq_true_2 _ Hne). simpl.
    destruct (String.prefix "//" text); simpl; [apply IH|].
    destruct (parse_acrq_formula text); [|apply IH].
    rewrite IH. by rewrite <- app_assoc.
Qed.

(** C10.  The tableau is built from exactly the statements that are not
    comments and parse, in order, each with its sign sent through
    [t→t, f→f, e→e] and [m], [n], [v] turned into [t]; when there is no
    such statement the method returns [(True, [])] and builds no tableau. *)
Theorem check_satisfiability_passes_usable_statements
    (statements : list theory_manager.Statement)
    (llm_evaluator : option Oracle) :
  let passed := omap (theory_manager.usable parse_acrq_formula) statements in
  let outcome :=
    theory_manager.check_satisfiability parse_acrq_formula TableauObject
      build_and_construct _analyze_information_states statements
      llm_evaluator in
  theory_manager.collect_formulas parse_acrq_formula statements [] = passed
  ∧ (theory_manager.sign_map_get "t" = signs.t
     ∧ theory_manager.sign_map_get "f" = signs.f
     ∧ theory_manager.sign_map_get "e" = signs.e
     ∧ theory_manager.sign_map_get "m" = signs.t
     ∧ theory_manager.sign_map_get "n" = signs.t
     ∧ theory_manager.sign_map_get "v" = signs.t)
  ∧ (passed = []
     → outcome = {| theory_manager.returned := (true, []);
                    theory_manager.tableau_built := None |})
  ∧ (passed ≠ []
     → theory_manager.tableau_built outcome = Some passed
       ∧ theory_manager.returned outcome
         = ((build_and_construct passed llm_evaluator).1,
            _analyze_information_states
              (build_and_construct passed llm_evaluator).2)).
Proof.
  intros passed outcome.
  assert (Hc : theory_manager.collect_formulas parse_acrq_formula statements []
               = passed) by apply collect_formulas_usable.
  split; [exact Hc|]. split; [repeat split; reflexivity|].
  subst outcome. unfold theory_manager.check_satisfiability. rewrite Hc.
  split.
  - by intros ->.
  - intros Hne. destruct passed as [|sf rest]; [done|].
    destruct (build_and_construct (sf :: rest) llm_evaluator); done.
Qed.

End CheckSatisfiabilityFacts.

(** C10 at a theory of four statements: a comment, a text that does not
    parse, [P] asserted under [m] and [Q] under [f]. *)
Lemma check_satisfiability_witness :
  theory_manager.toy_parser "" = None
  ∧ theory_manager.collect_formulas theory_manager.toy_parser
      [theory_manager.mkStatement "S0001" "a note" (Some "// a note") "t" false;
       theory_manager.mkStatement "S0002" "??" (Some "??") "t" false;
       theory_manager.mkStatement "S0003" "P" (Some "P") "m" false;
       theory_manager.mkStatement "S0004" "Q" (Some "Q") "f" false] []
    = [signs.t ▷ PropositionalAtom "P"; signs.f ▷ PropositionalAtom "Q"].
Proof.
  split; [reflexivity|].
  refine (eq_trans
    (proj1 (check_satisfiability_passes_usable_statements
              theory_manager.toy_parser unit (λ _ _, (true, tt)) (λ _, [])
              eq_refl _ None)) _).
  reflexivity.
Defined.

(** ** Branch objects inside a tableau *)

Lemma the_branch_update_branch (g : Branch → Branch) (T : Tableau) (id id' : nat) :
  (∀ b, branch_id (g b) = branch_id b)
  → the_branch (update_branch id g T) id'
    = match List.find (λ b, bool_decide (branch_id b = id')) (branches T) with
      | Some b => if bool_decide (branch_id b = id) then g b else b
      | None => empty_branch id'
      end.
Proof.
  intros Hg. unfold the_branch, update_branch. simpl.
  induction (branches T) as [|b rest IH]; simpl; [done|].
  destruct (bool_decide (branch_id b = id)) eqn:Hb; simpl.
  - rewrite Hg. destruct (bool_decide (branch_id b = id')); simpl; [by rewrite Hb|].
    exact IH.
  - destruct (bool_decide (branch_id b = id')); simpl; [by rewrite Hb|].
    exact IH.
Qed.

Lemma ensure_llm_evaluated_id (b : Branch) :
  branch_id (ensure_llm_evaluated b) = branch_id b.
Proof. unfold ensure_llm_evaluated. by destruct (_llm_evaluated b). Qed.

Lemma ensure_llm_evaluated_mem (key : string) (b : Branch) :
  llm_evaluated_mem key (ensure_llm_evaluated b) = llm_evaluated_mem key b.
Proof.
  unfold ensure_llm_evaluated, llm_evaluated_mem.
  destruct (_llm_evaluated b) eqn:E; simpl; by rewrite ?E.
Qed.

(** Creating the [_llm_evaluated] set of a branch changes nothing else:
    every branch keeps its nodes, its index, its closure state and the
    atoms recorded as evaluated. *)
Lemma the_branch_ensure_llm_evaluated (T : Tableau) (id id' : nat) :
  let b' := the_branch (update_branch id ensure_llm_evaluated T) id' in
  let b := the_branch T id' in
  branch_nodes b' = branch_nodes b
  ∧ formula_index b' = formula_index b
  ∧ is_closed b' = is_closed b
  ∧ ground_terms b' = ground_terms b
  ∧ processed b' = processed b
  ∧ ∀ key, llm_evaluated_mem key b' = llm_evaluated_mem key b.
Proof.
  intros b' b. subst b' b.
  rewrite (the_branch_update_branch _ _ _ _ ensure_llm_evaluated_id).
  unfold the_branch.
  destruct (List.find _ (branches T)) as [b|]; simpl; [|done].
  destruct (bool_decide (branch_id b = id)); [|done].
  repeat split; try (unfold ensure_llm_evaluated; by destruct (_llm_evaluated b)).
  intros key. apply ensure_llm_evaluated_mem.
Qed.

Lemma set_constant_counter_same (T : Tableau) :
  set_constant_counter (_constant_counter T) T = T.
Proof. by destruct T. Qed.

Lemma set_constant_counter_twice (c c' : nat) (T : Tableau) :
  set_constant_counter c' (set_constant_counter c T) = set_constant_counter c' T.
Proof. reflexivity. Qed.

(** ** The proof-search loop *)

Section EngineFacts.

Variable get_acrq_rule :
  SignedFormula → (nat → Term) → list Term → option (list Term)
  → option FergusonRule * nat.
Variable super_apply_rule : Tableau → TableauNode → nat → RuleInfo → Tableau.
Variable is_complete : Tableau → bool.
Variable _select_optimal_branch : Tableau → option nat.
Variable super_extract_model : Tableau → Branch → option Model.

Abbreviation loop := (construct_loop get_acrq_rule super_apply_rule is_complete
                    _select_optimal_branch).
Abbreviation run := (construct_with get_acrq_rule super_apply_rule is_complete
                   _select_optimal_branch super_extract_model).
Abbreviation body := (loop_body get_acrq_rule super_apply_rule
                    _select_optimal_branch).
Abbreviation scan := (_get_prioritized_rules get_acrq_rule).
Abbreviation applicable := (_get_applicable_rule get_acrq_rule).

Lemma loop_condition_bound (iteration : nat) (T : Tableau) :
  loop_condition is_complete iteration T = true → iteration < max_iterations.
Proof.
  unfold loop_condition. rewrite !andb_true_iff.
  intros [[_ H] _]. by apply bool_decide_eq_true in H.
Qed.

Lemma construct_loop_unfold (fuel iteration : nat) (w : World) :
  loop (S fuel) iteration w
  = if loop_condition is_complete iteration (tableau w) then
      match body w with
      | (Break, w') => Some (iteration + 1, w')
      | (Continue, w') => loop fuel (iteration + 1) w'
      end
    else Some (iteration, w).
Proof. reflexivity. Qed.



(** Enough fuel: the loop leaves by its own condition or by a [break], after
    at most [max_iterations] passes, and more fuel changes nothing. *)
Lemma construct_loop_terminates (fuel iteration : nat) (w : World) :
  max_iterations - iteration < fuel
  → ∃ passes w',
      loop fuel iteration w = Some (passes, w')
      ∧ (iteration ≤ max_iterations → passes ≤ max_iterations)
      ∧ ∀ fuel', max_iterations - iteration < fuel'
                 → loop fuel' iteration w = Some (passes, w').
Proof.
  revert iteration w.
  induction fuel as [|fuel IH]; intros iteration w Hfuel; [lia|].
  rewrite construct_loop_unfold.
  destruct (loop_condition is_complete iteration (tableau w)) eqn:Hcond.
  - pose proof (loop_condition_bound _ _ Hcond) as Hlt.
    destruct (body w) as [[|] w1] eqn:Hbody.
    + destruct (IH (iteration + 1) w1 ltac:(lia)) as (passes & w' & Hrun & Hle & Hmore).
      exists passes, w'. split; [exact Hrun|]. split; [lia|].
      intros [|fuel'] Hfuel'; [lia|].
      rewrite construct_loop_unfold, Hcond, Hbody. apply Hmore. lia.
    + exists (iteration + 1), w1. split; [done|]. split; [lia|].
      intros [|fuel'] Hfuel'; [lia|].
      by rewrite construct_loop_unfold, Hcond, Hbody.
  - exists iteration, w. split; [done|]. split; [done|].
    intros [|fuel'] Hfuel'; [lia|].
    by rewrite construct_loop_unfold, Hcond.
Qed.

(** C7.  [construct] returns a result after at most [max_iterations = 1000]
    passes through the body of its loop, whatever the initial formulas, the
    oracle and the inherited helpers do; fuel beyond [max_iterations + 1]
    changes neither the result nor the number of passes. *)
Theorem construct_terminates_within_max_iterations (T : Tableau) :
  ∃ result passes calls,
    run (S max_iterations) T = Some (result, passes, calls)
    ∧ construct get_acrq_rule super_apply_rule is_complete
        _select_optimal_branch super_extract_model T = Some result
    ∧ passes ≤ max_iterations
    ∧ max_iterations = 1000
    ∧ ∀ fuel, max_iterations < fuel
              → run fuel T = Some (result, passes, calls).
Proof.
  destruct (construct_loop_terminates (S max_iterations) 0
              {| tableau := T; oracle_calls := [] |} ltac:(lia))
    as (passes & w' & Hrun & Hle & Hmore).
  exists (tableau_result super_extract_model (tableau w')), passes,
    (oracle_calls w').
  assert (Hw : run (S max_iterations) T
               = Some (tableau_result super_extract_model (tableau w'),
                       passes, oracle_calls w')).
  { unfold construct_with. by rewrite Hrun. }
  split; [exact Hw|]. split; [by unfold construct; rewrite Hw|].
  split; [apply Hle; lia|]. split; [reflexivity|].
  intros fuel Hfuel. unfold construct_with. rewrite Hmore; [done|lia].
Qed.

(** *** Asking for the rule of a node *)

(** The world after the rule selector has been consulted for a formula that
    is not a universal: only the constant counter has moved. *)
Lemma applicable_not_universal (sf : SignedFormula) (branch : nat) (w : World) :
  (∀ x r b, sf_formula sf ≠ RestrictedUniversalFormula x r b)
  → let T := tableau w in
    let found :=
      get_acrq_rule sf (fresh_constant (_constant_counter T))
        (ground_terms (the_branch T branch)) None in
    let w1 := {| tableau := set_constant_counter (_constant_counter T + found.2) T;
                 oracle_calls := oracle_calls w |} in
    applicable sf branch w
    = match found.1 with
      | Some rule =>
          (Some {| name := fr_name rule;
                   rule_type := if is_branching rule then BETA else ALPHA;
                   priority := if is_branching rule then 20 else 10;
                   complexity_cost := length (fr_conclusions rule);
                   conclusions := fr_conclusions rule;
                   instantiation_constant := fr_instantiation_constant rule |},
           w1)
      | None =>
          if bool_decide (is_Some (llm_evaluator T)) && is_atomic (sf_formula sf)
          then _create_llm_evaluation_rule sf branch w1
          else (None, w1)
      end.
Proof.
  intros Hnu T found w1. subst T found w1.
  unfold _get_applicable_rule, mbind, M_bind, get_tableau.
  destruct (sf_formula sf) eqn:Hf;
    try (exfalso; eapply Hnu; reflexivity); cbn;
    destruct (get_acrq_rule sf _ _ None) as [[rule|] calls]; cbn;
    try destruct (is_branching rule); try reflexivity;
    destruct (bool_decide (is_Some (llm_evaluator (tableau w)))); reflexivity.
Qed.

(** The oracle rule, step by step. *)
Lemma create_llm_evaluation_rule_run (sf : SignedFormula) (branch : nat)
    (w : World) (evaluator : Oracle) :
  llm_evaluator (tableau w) = Some evaluator
  → is_atomic (sf_formula sf) = true
  → let φ := sf_formula sf in
    let T1 := update_branch branch ensure_llm_evaluated (tableau w) in
    _create_llm_evaluation_rule sf branch w
    = if llm_evaluated_mem (evaluation_key φ) (the_branch T1 branch)
      then (None, {| tableau := T1; oracle_calls := oracle_calls w |})
      else
        let w2 := {| tableau := T1;
                     oracle_calls := oracle_calls w ++ [(branch, φ)] |} in
        match evaluator φ with
        | None => (None, w2)
        | Some bilateral_value =>
            let conclusion_set :=
              positive_conclusion bilateral_value φ
              ++ negative_conclusion bilateral_value φ in
            match conclusion_set with
            | [] => (None, w2)
            | _ =>
                (Some {| name := "LLM-Eval(" +:+ formula_str φ +:+ ")";
                         rule_type := ALPHA; priority := 5;
                         complexity_cost := length conclusion_set;
                         conclusions := [conclusion_set];
                         instantiation_constant := None |}, w2)
            end
        end.
Proof.
  intros Hev Hat φ T1. subst φ T1.
  unfold _create_llm_evaluation_rule, mbind, M_bind, get_tableau.
  rewrite Hev, Hat. cbn.
  destruct (llm_evaluated_mem _ _); [reflexivity|]. cbn.
  destruct (evaluator (sf_formula sf)) as [bv|]; [|reflexivity].
  destruct (positive_conclusion bv (sf_formula sf)
            ++ negative_conclusion bv (sf_formula sf)); reflexivity.
Qed.

(** *** Scanning a branch for rules *)

(** The inherited rule selector gives no rule for an atom signed [t], [f]
    or [e]: the table of section 4.2 has no such row. *)
Hypothesis atoms_have_no_rule :
  ∀ sf fresh existing used,
    is_atomic (sf_formula sf) = true
    → sf_sign sf ∈ [signs.t; signs.f; signs.e]
    → (get_acrq_rule sf fresh existing used).1 = None.

(** A scan over atoms signed [t], [f] or [e] finds no rule when there is no
    oracle, and only moves the constant counter. *)
Lemma collect_rules_atoms_without_oracle (branch : nat)
    (nds : list TableauNode) (w : World) :
  Forall (λ node, is_atomic (sf_formula (node_formula node)) = true
                  ∧ sf_sign (node_formula node) ∈ [signs.t; signs.f; signs.e])
    nds
  → llm_evaluator (tableau w) = None
  → ∃ c, collect_rules get_acrq_rule branch nds w
         = ([], {| tableau := set_constant_counter c (tableau w);
                   oracle_calls := oracle_calls w |}).
Proof.
  intros Hall. revert w.
  induction Hall as [|node rest [Hat Hs] _ IH]; intros w Hllm.
  - exists (_constant_counter (tableau w)).
    rewrite set_constant_counter_same. by destruct w.
  - cbn [collect_rules]. unfold mbind, M_bind.
    rewrite applicable_not_universal
      by (intros x r b Hf; rewrite Hf in Hat; discriminate).
    cbn zeta. rewrite atoms_have_no_rule by assumption.
    rewrite Hllm. cbn [bool_decide andb].
    assert (Hno : bool_decide (is_Some (@None Oracle)) = false)
      by (apply bool_decide_eq_false; intros [? ?]; discriminate).
    rewrite Hno. cbn [andb].
    match goal with
    | |- context [collect_rules _ _ _ ?w1] =>
        destruct (IH w1 Hllm) as [c Hc]; rewrite Hc
    end.
    exists c. reflexivity.
Qed.

(** *** The result *)

Lemma extract_models_nonempty (T : Tableau) (open : list nat)
    (found : list ACrQModel) :
  0 < length (extract_models super_extract_model T open found)
  ↔ 0 < length found
    ∨ ∃ id, id ∈ open ∧ is_closed (the_branch T id) = false
            ∧ is_Some (super_extract_model T (the_branch T id)).
Proof.
  revert found.
  induction open as [|id rest IH]; intros found; simpl.
  - split; [by left|]. intros [H|(id & Hin & _)]; [done|]. inversion Hin.
  - unfold _extract_model.
    destruct (is_closed (the_branch T id)) eqn:Hcl.
    + rewrite IH. split.
      * intros [H|(id' & Hin & H)]; [by left|]. right. exists id'.
        split; [by right|done].
      * intros [H|(id' & Hin & Hop & H)]; [by left|].
        apply elem_of_cons in Hin as [->|Hin]; [congruence|].
        right. eauto.
    + destruct (super_extract_model T (the_branch T id)) as [base|] eqn:Hex.
      * destruct (bool_decide _) eqn:Hmem; rewrite IH.
        -- apply bool_decide_eq_true in Hmem.
           split; [|intros _; left; destruct found; [inversion Hmem|simpl; lia]].
           intros _. right. exists id. split; [left|]. by rewrite Hex.
        -- rewrite length_app. simpl.
           split; [|intros _; left; lia].
           intros _. right. exists id. split; [left|]. by rewrite Hex.
      * rewrite IH. split.
        -- intros [H|(id' & Hin & H)]; [by left|]. right. exists id'.
           split; [by right|done].
        -- intros [H|(id' & Hin & Hop & H)]; [by left|].
           apply elem_of_cons in Hin as [->|Hin];
             [rewrite Hex in H; by destruct H|].
           right. eauto.
Qed.

(** [satisfiable] is [len(models) > 0]: some branch of the open list is not
    closed and yields a model. *)
Lemma satisfiable_iff (T : Tableau) :
  satisfiable (tableau_result super_extract_model T) = true
  ↔ ∃ id, id ∈ open_branches T ∧ is_closed (the_branch T id) = false
          ∧ is_Some (super_extract_model T (the_branch T id)).
Proof.
  unfold tableau_result. cbn [satisfiable].
  rewrite bool_decide_eq_true, extract_models_nonempty. simpl.
  split; [intros [H|H]; [lia|done] | by right].
Qed.

(** *** Gluts and sign conflicts *)

(** The inherited model extraction yields a model for every branch that is
    not closed (section 4.8: "for each surviving open branch, construct an
    interpretation"). *)
Hypothesis open_branch_has_model :
  ∀ T b, is_closed b = false → is_Some (super_extract_model T b).

(** Inserting [s2 ▷ φ] into a branch whose index holds [s1 ▷ φ] closes the
    branch, for distinct [s1], [s2] among [t], [f], [e]. *)
Lemma add_formula_closes_on_conflict (b : Branch) (φ : Formula) (s1 s2 : Sign)
    (k : nat) (node : TableauNode) :
  s1 ∈ [signs.t; signs.f; signs.e] → s1 ≠ s2
  → (s1 ▷ φ, k) ∈ formula_index b
  → (add_formula b (s2 ▷ φ) node).2 = true
    ∧ is_closed (add_formula b (s2 ▷ φ) node).1 = true.
Proof.
  intros Hs1 Hne Hin.
  assert (Hv : contradiction_verdict b (s2 ▷ φ) = true).
  { rewrite contradiction_verdict_plain. apply distinct_sign_check_spec.
    exists s1. split; [done|]. split; [done|].
    exists (s1 ▷ φ, k). simpl. auto using formula_eqb_refl. }
  unfold add_formula. simpl. rewrite Hv. split; [done|]. apply orb_true_r.
Qed.

Lemma initial_branch_id (formulas : list SignedFormula) (b : Branch)
    (next_id : nat) :
  branch_id (initial_branch formulas b next_id).1 = branch_id b.
Proof.
  revert b next_id. induction formulas as [|sf rest IH]; intros b j; [done|].
  cbn [initial_branch].
  specialize (IH (add_formula b sf
                    {| node_id := j; node_formula := sf; node_parent := None;
                       node_rule := None |}).1 (S j)).
  destruct (initial_branch rest _ (S j)) as [b' others]. exact IH.
Qed.

(** The tableau just built has one branch object, with id [0]. *)
Lemma ACrQTableau_branches (k : nat) (formulas : list SignedFormula)
    (evaluator : option Oracle) :
  let b := (initial_branch formulas (_create_branch ∅ 0) 0).1 in
  let T0 := ACrQTableau k formulas evaluator in
  branches T0 = [b]
  ∧ the_branch T0 0 = b
  ∧ (∀ id, id ≠ 0 → the_branch T0 id = empty_branch id)
  ∧ open_branches T0 = (if is_closed b then [] else [0])
  ∧ closed_branches T0 = (if is_closed b then [0] else [])
  ∧ llm_evaluator T0 = evaluator
  ∧ early_termination T0
    = match evaluator with Some _ => false | None => true end.
Proof.
  intros b T0. subst b T0. unfold ACrQTableau, Tableau_init, the_branch.
  pose proof (initial_branch_id formulas (_create_branch ∅ 0) 0) as Hid.
  destruct (initial_branch formulas (_create_branch ∅ 0) 0) as [b others].
  cbn in Hid |- *. rewrite Hid.
  repeat split; try done.
  all: try (intros id Hne; by rewrite bool_decide_eq_false_2).
  all: try by destruct evaluator.
Qed.

Lemma glut_tableau_shape (k : nat) (p : string) (ts : list Term) :
  let T0 := ACrQTableau k
              [signs.t ▷ BilateralPredicateFormula p ts false;
               signs.t ▷ BilateralPredicateFormula p ts true] None in
  llm_evaluator T0 = None
  ∧ open_branches T0 = [0]
  ∧ closed_branches T0 = []
  ∧ is_closed (the_branch T0 0) = false
  ∧ ∀ id, Forall
            (λ node, is_atomic (sf_formula (node_formula node)) = true
                     ∧ sf_sign (node_formula node) ∈ [signs.t; signs.f; signs.e])
            (pending_nodes (the_branch T0 id)).
Proof.
  intros T0. subst T0.
  split; [reflexivity|]. split; [reflexivity|]. split; [reflexivity|].
  split; [reflexivity|].
  intros id. destruct (decide (id = 0)) as [->|Hne].
  - vm_compute. repeat constructor.
  - destruct (ACrQTableau_branches k
                [signs.t ▷ BilateralPredicateFormula p ts false;
                 signs.t ▷ BilateralPredicateFormula p ts true] None)
      as (_ & _ & Hother & _).
    rewrite (Hother id Hne). constructor.
Qed.

(** C1.  The tableau built from [t ▷ p(ts)] and [t ▷ p*(ts)] alone is
    satisfiable: its one branch stays open.  And on any branch, inserting a
    formula that is already there under another sign of [{t, f, e}] closes
    it; the tableau built from such a pair has no open branch and is
    unsatisfiable. *)
Theorem glut_satisfiable_sign_conflict_closes (k : nat) (p : string)
    (ts : list Term) :
  (∃ result,
     construct get_acrq_rule super_apply_rule is_complete
       _select_optimal_branch super_extract_model
       (ACrQTableau k
          [signs.t ▷ BilateralPredicateFormula p ts false;
           signs.t ▷ BilateralPredicateFormula p ts true] None)
     = Some result
     ∧ satisfiable result = true
     ∧ result_open_branches result = 1
     ∧ result_closed_branches result = 0)
  ∧ (∀ (b : Branch) (φ : Formula) (s1 s2 : Sign) (j : nat) (node : TableauNode),
       s1 ∈ [signs.t; signs.f; signs.e] → s2 ∈ [signs.t; signs.f; signs.e]
       → s1 ≠ s2 → (s1 ▷ φ, j) ∈ formula_index b
       → (add_formula b (s2 ▷ φ) node).2 = true
         ∧ is_closed (add_formula b (s2 ▷ φ) node).1 = true)
  ∧ (∀ (φ : Formula) (s1 s2 : Sign) (evaluator : option Oracle),
       s1 ∈ [signs.t; signs.f; signs.e] → s2 ∈ [signs.t; signs.f; signs.e]
       → s1 ≠ s2
       → ∃ result,
           construct get_acrq_rule super_apply_rule is_complete
             _select_optimal_branch super_extract_model
             (ACrQTableau k [s1 ▷ φ; s2 ▷ φ] evaluator)
           = Some result
           ∧ satisfiable result = false
           ∧ result_open_branches result = 0).
Proof.
  split; [|split].
  - destruct (glut_tableau_shape k p ts) as (Hllm & Hopen & Hclosed & Hcl & Hat).
    set (T0 := ACrQTableau k _ None) in *.
    assert (Hend : ∃ passes c calls,
      run (S max_iterations) T0
      = Some (tableau_result super_extract_model (set_constant_counter c T0),
              passes, calls)).
    { unfold construct_with. rewrite construct_loop_unfold. cbn [tableau].
      destruct (loop_condition is_complete 0 T0).
      - unfold loop_body, mbind, M_bind, get_tableau. cbn [tableau].
        destruct (_select_optimal_branch T0) as [id|].
        + unfold _get_prioritized_rules, mbind, M_bind, get_tableau.
          cbn [tableau].
          destruct (collect_rules_atoms_without_oracle id
                      (pending_nodes (the_branch T0 id))
                      {| tableau := T0; oracle_calls := [] |} (Hat id) Hllm)
            as [c Hc].
          rewrite Hc. cbn. eauto.
        + cbn. exists 1, (_constant_counter T0), [].
          by rewrite set_constant_counter_same.
      - cbn. exists 0, (_constant_counter T0), [].
        by rewrite set_constant_counter_same. }
    destruct Hend as (passes & c & calls & Hrun).
    eexists. unfold construct. rewrite Hrun. split; [reflexivity|].
    split; [|split].
    + apply satisfiable_iff. exists 0.
      change (open_branches (set_constant_counter c T0)) with (open_branches T0).
      change (the_branch (set_constant_counter c T0) 0) with (the_branch T0 0).
      rewrite Hopen. split; [left|].
      split; [exact Hcl|]. by apply open_branch_has_model.
    + change (result_open_branches _) with (length (open_branches T0)).
      by rewrite Hopen.
    + change (result_closed_branches _) with (length (closed_branches T0)).
      by rewrite Hclosed.
  - intros b φ s1 s2 j node Hs1 _ Hne Hin.
    by apply (add_formula_closes_on_conflict b φ s1 s2 j node).
  - intros φ s1 s2 evaluator Hs1 Hs2 Hne.
    set (T0 := ACrQTableau k [s1 ▷ φ; s2 ▷ φ] evaluator).
    assert (Hopen : open_branches T0 = []).
    { subst T0.
      destruct (ACrQTableau_branches k [s1 ▷ φ; s2 ▷ φ] evaluator)
        as (_ & _ & _ & Hopen & _).
      rewrite Hopen. cbn [initial_branch fst].
      match goal with
      | |- context [add_formula ?b1 (s2 ▷ φ) ?n1] =>
          destruct (add_formula_closes_on_conflict b1 φ s1 s2 0 n1 Hs1 Hne)
            as [_ Hcl]; [|by rewrite Hcl]
      end.
      cbn. left. }
    eexists. unfold construct, construct_with.
    rewrite construct_loop_unfold. unfold loop_condition. cbn [tableau].
    rewrite Hopen. cbn [bool_decide andb].
    rewrite bool_decide_eq_false_2 by (intros H; by apply H).
    cbn [andb tableau oracle_calls]. split; [reflexivity|].
    unfold tableau_result. cbn [satisfiable result_open_branches].
    rewrite Hopen. split; reflexivity.
Qed.

(** *** The oracle rule *)



Lemma not_is_Some_None {A : Type} : bool_decide (is_Some (@None A)) = false.
Proof. apply bool_decide_eq_false. intros [? ?]. discriminate. Qed.

Lemma is_Some_Some {A : Type} (x : A) : bool_decide (is_Some (Some x)) = true.
Proof. apply bool_decide_eq_true. by exists x. Qed.


(** *** How often the oracle is asked *)

(** Asking for the rule of an atom signed [t], [f] or [e] while an oracle is
    installed: the oracle is called exactly when the atom is not yet marked
    as evaluated on the branch, and nothing is marked by the lookup. *)
Lemma applicable_atom_with_oracle (sf : SignedFormula) (branch : nat) (w : World)
    (evaluator : Oracle) :
  llm_evaluator (tableau w) = Some evaluator
  → is_atomic (sf_formula sf) = true
  → sf_sign sf ∈ [signs.t; signs.f; signs.e]
  → ∃ c rule,
      applicable sf branch w
      = (rule,
         {| tableau := update_branch branch ensure_llm_evaluated
                         (set_constant_counter c (tableau w));
            oracle_calls :=
              oracle_calls w
              ++ (if llm_evaluated_mem (evaluation_key (sf_formula sf))
                       (the_branch (tableau w) branch)
                  then [] else [(branch, sf_formula sf)]) |}).
Proof.
  intros Hev Hat Hs.
  assert (Hnu : ∀ x r b, sf_formula sf ≠ RestrictedUniversalFormula x r b).
  { intros x r b Hf. rewrite Hf in Hat. discriminate. }
  rewrite (applicable_not_universal sf branch w Hnu). cbn zeta.
  rewrite atoms_have_no_rule, Hev, is_Some_Some, Hat by assumption.
  cbn [andb].
  erewrite create_llm_evaluation_rule_run by (try exact Hev; exact Hat).
  cbn zeta. cbn [tableau oracle_calls].
  match goal with
  | |- context [set_constant_counter ?c (tableau w)] =>
      exists c;
      destruct (the_branch_ensure_llm_evaluated
                  (set_constant_counter c (tableau w)) branch branch)
        as (_ & _ & _ & _ & _ & Hsame)
  end.
  rewrite Hsame.
  change (the_branch (set_constant_counter _ (tableau w)) branch)
    with (the_branch (tableau w) branch).
  destruct (llm_evaluated_mem _ _).
  - eexists. by rewrite app_nil_r.
  - destruct (evaluator (sf_formula sf)) as [bv|]; [|by eexists].
    destruct (positive_conclusion bv (sf_formula sf)
              ++ negative_conclusion bv (sf_formula sf)); by eexists.
Qed.

(** A scan of atoms asks the oracle about every one that is not yet marked
    as evaluated, whether or not the rule built from the answer is applied
    afterwards; the scan itself marks nothing. *)
Lemma collect_rules_asks_for_every_unmarked_atom (branch : nat)
    (nds : list TableauNode) (w : World) (evaluator : Oracle) :
  llm_evaluator (tableau w) = Some evaluator
  → Forall (λ node, is_atomic (sf_formula (node_formula node)) = true
                    ∧ sf_sign (node_formula node) ∈ [signs.t; signs.f; signs.e])
      nds
  → let w' := (collect_rules get_acrq_rule branch nds w).2 in
    oracle_calls w'
    = oracle_calls w
      ++ map (λ node, (branch, sf_formula (node_formula node)))
           (List.filter
              (λ node, negb (llm_evaluated_mem
                               (evaluation_key (sf_formula (node_formula node)))
                               (the_branch (tableau w) branch)))
              nds)
    ∧ ∀ key, llm_evaluated_mem key (the_branch (tableau w') branch)
             = llm_evaluated_mem key (the_branch (tableau w) branch).
Proof.
  intros Hev Hall. revert w Hev.
  induction Hall as [|node rest [Hat Hs] _ IH]; intros w Hev.
  - cbn. by rewrite app_nil_r.
  - cbn [collect_rules]. unfold mbind, M_bind.
    destruct (applicable_atom_with_oracle (node_formula node) branch w
                evaluator Hev Hat Hs) as (c & rule & Happ).
    rewrite Happ.
    set (w1 := {| tableau := update_branch branch ensure_llm_evaluated
                               (set_constant_counter c (tableau w));
                  oracle_calls := _ |}).
    assert (Hev1 : llm_evaluator (tableau w1) = Some evaluator) by exact Hev.
    assert (Hmem1 : ∀ key, llm_evaluated_mem key (the_branch (tableau w1) branch)
                           = llm_evaluated_mem key (the_branch (tableau w) branch)).
    { intros key.
      destruct (the_branch_ensure_llm_evaluated
                  (set_constant_counter c (tableau w)) branch branch)
        as (_ & _ & _ & _ & _ & Hsame).
      exact (Hsame key). }
    specialize (IH w1 Hev1). cbn zeta in IH. destruct IH as [Hcalls Hmem].
    destruct (collect_rules get_acrq_rule branch rest w1) as [others w2].
    cbn [snd] in Hcalls, Hmem.
    cbn zeta. unfold mret, M_ret. cbn [snd]. split.
    + rewrite Hcalls.
      rewrite (List.filter_ext
                 (λ nd, negb (llm_evaluated_mem
                                (evaluation_key (sf_formula (node_formula nd)))
                                (the_branch (tableau w1) branch)))
                 (λ nd, negb (llm_evaluated_mem
                                (evaluation_key (sf_formula (node_formula nd)))
                                (the_branch (tableau w) branch))))
        by (intros nd; by rewrite Hmem1).
      subst w1. cbn [oracle_calls List.filter].
      destruct (llm_evaluated_mem
                  (evaluation_key (sf_formula (node_formula node))) _);
        cbn [negb map]; by rewrite <- ?app_assoc, ?app_nil_r.
    + intros key. by rewrite Hmem, Hmem1.
Qed.

(** C8, amended.  [construct] always returns a result.  When it stopped at
    the iteration cap or at the branching cap, the result is an ordinary
    one: it has no [incomplete] attribute, and [satisfiable] is [True]
    exactly when some branch of the open list is not closed. *)
Theorem capped_construct_returns_plain_result (T : Tableau) :
  ∃ result passes calls,
    run (S max_iterations) T = Some (result, passes, calls)
    ∧ (passes = max_iterations
       ∨ max_branching_factor (result_tableau result)
         ≤ length (branches (result_tableau result))
       → result_keyword result "incomplete" = None
         ∧ (satisfiable result = true
            ↔ ∃ id, id ∈ open_branches (result_tableau result)
                    ∧ is_closed (the_branch (result_tableau result) id) = false)).
Proof.
  destruct (construct_loop_terminates (S max_iterations) 0
              {| tableau := T; oracle_calls := [] |} ltac:(lia))
    as (passes & w' & Hrun & _).
  exists (tableau_result super_extract_model (tableau w')), passes,
    (oracle_calls w').
  split; [unfold construct_with; by rewrite Hrun|].
  intros _. split; [reflexivity|].
  rewrite satisfiable_iff. cbn [result_tableau tableau_result].
  split.
  - intros (id & Hin & Hcl & _). eauto.
  - intros (id & Hin & Hcl). exists id. auto.
Qed.

End EngineFacts.

(** ** The engine on top of the inherited helpers of [base_tableau] *)

Lemma base_atoms_have_no_rule (sf : SignedFormula) (fresh : nat → Term)
    (existing : list Term) (used : option (list Term)) :
  is_atomic (sf_formula sf) = true
  → sf_sign sf ∈ [signs.t; signs.f; signs.e]
  → (base_tableau.get_acrq_rule sf fresh existing used).1 = None.
Proof.
  destruct sf as [s φ]. cbn [sf_formula sf_sign]. intros Hat Hs.
  destruct φ; try discriminate; destruct s; try reflexivity;
    exfalso; set_unfold; intuition discriminate.
Qed.

Lemma base_open_branch_has_model (T : Tableau) (b : Branch) :
  is_closed b = false → is_Some (base_tableau._extract_model T b).
Proof. intros _. unfold base_tableau._extract_model. eauto. Qed.

(** C1 at [Flying(tweety)]. *)
Lemma glut_satisfiable_witness :
  ∃ result,
    examples.base_construct
      (ACrQTableau 1000
         [signs.t ▷ BilateralPredicateFormula "Flying" [Constant "tweety"] false;
          signs.t ▷ BilateralPredicateFormula "Flying" [Constant "tweety"] true]
         None)
    = Some result
    ∧ satisfiable result = true
    ∧ result_open_branches result = 1
    ∧ result_closed_branches result = 0.
Proof.
  exact (proj1 (glut_satisfiable_sign_conflict_closes
                  base_tableau.get_acrq_rule base_tableau.apply_rule
                  base_tableau.is_complete base_tableau._select_optimal_branch
                  base_tableau._extract_model base_atoms_have_no_rule
                  base_open_branch_has_model 1000 "Flying"
                  [Constant "tweety"])).
Defined.

(** C8, amended, on a tableau whose branching cap is [1]. *)
Lemma capped_construct_witness :
  ∃ result passes calls,
    examples.base_construct_with (S max_iterations)
      (set_max_branching_factor 1
         (ACrQTableau 1000
            [signs.t ▷ CompoundFormula "|"
                         [PropositionalAtom "P"; PropositionalAtom "Q"]]
            None))
    = Some (result, passes, calls)
    ∧ (passes = max_iterations
       ∨ max_branching_factor (result_tableau result)
         ≤ length (branches (result_tableau result))
       → result_keyword result "incomplete" = None
         ∧ (satisfiable result = true
            ↔ ∃ id, id ∈ open_branches (result_tableau result)
                    ∧ is_closed (the_branch (result_tableau result) id) = false)).
Proof.
  exact (capped_construct_returns_plain_result
           base_tableau.get_acrq_rule base_tableau.apply_rule
           base_tableau.is_complete base_tableau._select_optimal_branch
           base_tableau._extract_model base_open_branch_has_model _).
Defined.

(** C8 as stated fails: with the branching cap at [1] the loop of
    [construct] is never entered for the tableau of [[t ▷ (P ∨ Q)]], the cap
    being reached from the start; the result returned has no [incomplete]
    flag set to [True]. *)
Lemma capped_result_has_no_incomplete_flag :
  ∃ result calls,
    examples.base_construct_with (S max_iterations)
      (set_max_branching_factor 1
         (ACrQTableau 1000
            [signs.t ▷ CompoundFormula "|"
                         [PropositionalAtom "P"; PropositionalAtom "Q"]]
            None))
    = Some (result, 0, calls)
    ∧ max_branching_factor (result_tableau result)
      ≤ length (branches (result_tableau result))
    ∧ result_keyword result "incomplete" ≠ Some (VBool true).
Proof.
  eexists _, _. split; [vm_compute; reflexivity|].
  split; [vm_compute; lia|]. vm_compute. discriminate.
Qed.

(** C5.  The code at the failing input.  On [[t ▷ P(a); t ▷ Q(a)]] with an
    oracle that has positive evidence for every atom, the tableau keeps its
    single branch, and the oracle is asked about [Q(a)] twice on it: once in
    the first pass, where the rule built for [Q(a)] is dropped because only
    the first rule of the list is applied, and again in the second pass. *)
Theorem oracle_called_twice_for_one_atom :
  ∃ result passes calls,
    examples.base_construct_with (S max_iterations)
      (ACrQTableau 1000 [signs.t ▷ examples.P_a; signs.t ▷ examples.Q_a]
         (Some examples.evidence_oracle))
    = Some (result, passes, calls)
    ∧ calls
      = [(0, examples.P_a); (0, examples.Q_a);
         (0, examples.Q_a);
         (0, BilateralPredicateFormula "P" [Constant "a"] true);
         (0, BilateralPredicateFormula "P" [Constant "a"] true);
         (0, BilateralPredicateFormula "Q" [Constant "a"] true);
         (0, BilateralPredicateFormula "Q" [Constant "a"] true)]
    ∧ examples.calls_for 0 examples.Q_a calls = 2
    ∧ length (branches (result_tableau result)) = 1.
Proof.
  eexists _, _, _. split; [vm_compute; reflexivity|].
  split; [reflexivity|]. split; vm_compute; reflexivity.
Qed.
(** * Further properties of the code *)

(** ** Names with a trailing star *)

Lemma endswith_star_append (p : string) : endswith_star (p +:+ "*") = true.
Proof.
  induction p as [|c p IH]; [reflexivity|].
  destruct p as [|c' p']; [reflexivity|]. exact IH.
Qed.

Lemma drop_last_append (p : string) : drop_last (p +:+ "*") = p.
Proof.
  induction p as [|c p IH]; [reflexivity|].
  destruct p as [|c' p']; [reflexivity|].
  change (String c (drop_last (String c' p' +:+ "*")) = String c (String c' p')).
  by rewrite IH.
Qed.

Lemma append_star_inj (p q : string) : p +:+ "*" = q +:+ "*" → p = q.
Proof.
  intros H. rewrite <- (drop_last_append p), <- (drop_last_append q).
  by rewrite H.
Qed.

Lemma endswith_star_split (s : string) :
  endswith_star s = true → s = drop_last s +:+ "*".
Proof.
  induction s as [|c s IH]; [discriminate|].
  destruct s as [|c' s'].
  - cbn. intros H. apply bool_decide_eq_true in H. by subst.
  - intros H. change (endswith_star (String c' s') = true) in H.
    change (String c (String c' s')
            = String c (drop_last (String c' s') +:+ "*")).
    f_equal. by apply IH.
Qed.

(** ** [_is_bilateral_glut] *)

(** Formulas that are equal as keys of the index have the same base name and
    the same polarity. *)
Lemma base_and_polarity_eqb (φ ψ : Formula) :
  formula_eqb ψ φ = true → base_and_polarity ψ = base_and_polarity φ.
Proof.
  unfold formula_eqb. intros H. apply bool_decide_eq_true in H.
  destruct ψ as [a|p ts|p ts [|]|c subs|x r b|x r b],
           φ as [a'|p' ts'|p' ts' [|]|c' subs'|x' r' b'|x' r' b'];
    cbn in H; try discriminate; try reflexivity.
  - by injection H as -> ->.
  - injection H as -> ->. cbn.
    by rewrite endswith_star_append, drop_last_append.
  - injection H as <- ->. cbn.
    by rewrite endswith_star_append, drop_last_append.
  - injection H as Hp ->. apply append_star_inj in Hp. by subst.
  - by injection H as -> ->.
Qed.

Lemma index_lookup_elem (b : Branch) (s : Sign) (φ : Formula) (k : nat) :
  k ∈ index_lookup b s φ
  → ∃ entry, entry ∈ formula_index b ∧ entry.2 = k
             ∧ formula_eqb (sf_formula entry.1) φ = true.
Proof.
  unfold index_lookup. intros H.
  apply list_elem_of_fmap in H as (entry & -> & H).
  apply list_elem_of_filter in H as [[_ Heq] Hin].
  by exists entry.
Qed.

Lemma formula_eqb_trans (φ ψ χ : Formula) :
  formula_eqb φ ψ = true → formula_eqb ψ χ = true → formula_eqb φ χ = true.
Proof.
  unfold formula_eqb. intros H1 H2.
  apply bool_decide_eq_true in H1, H2. apply bool_decide_eq_true. congruence.
Qed.

Lemma glut_scan_same_key (b : Branch) (φ : Formula) (base_name : string)
    (is_negative : bool) (ids : list nat) :
  base_and_polarity φ = Some (base_name, is_negative)
  → (∀ k, k ∈ ids
          → ∃ node, branch_nodes b !! k = Some node
                    ∧ formula_eqb (sf_formula (node_formula node)) φ = true)
  → glut_scan b φ base_name is_negative ids = Some false.
Proof.
  intros Hbase. induction ids as [|k ids IH]; intros Hids; [reflexivity|].
  cbn [glut_scan].
  destruct (Hids k) as (node & -> & Heq); [left|].
  rewrite (base_and_polarity_eqb _ _ Heq), Hbase.
  rewrite (bool_decide_eq_true_2 (is_negative = is_negative)) by reflexivity.
  rewrite andb_false_r. cbn [andb].
  apply IH. intros k' Hk'. apply Hids. by right.
Qed.

(** X1.  [_is_bilateral_glut] looks only at the entries the index holds
    under the probed sign for the probed formula itself, and reads the node
    of an entry as [self.nodes[node_id]], by position in the node list of
    the branch.  Whenever each of these reads yields a node that carries the
    probed formula, the method answers [False]: the nodes it inspects then
    have the polarity of the formula and never the opposite one.  (Where
    node ids and positions differ the reads yield other nodes or fail, and
    the premise does not hold.) *)
Theorem bilateral_glut_never_found (b : Branch) (φ : Formula) (s : Sign) :
  (∀ id, id ∈ index_lookup b s φ
         → ∃ node, branch_nodes b !! id = Some node
                   ∧ formula_eqb (sf_formula (node_formula node)) φ = true)
  → _is_bilateral_glut b φ s = Some false.
Proof.
  intros Hindex. unfold _is_bilateral_glut.
  destruct (base_and_polarity φ) as [[base_name is_negative]|] eqn:Hbase;
    [|reflexivity].
  by apply glut_scan_same_key.
Qed.

(** X1 at the branch that holds [t ▷ Flying(tweety)] and
    [t ▷ Flying*(tweety)], probed with [Flying*(tweety)]: the one entry is
    node 1, which carries [Flying*(tweety)] itself. *)
Lemma bilateral_glut_witness :
  _is_bilateral_glut
    (the_branch
       (ACrQTableau 1000
          [signs.t ▷ BilateralPredicateFormula "Flying" [Constant "tweety"] false;
           signs.t ▷ BilateralPredicateFormula "Flying" [Constant "tweety"] true]
          None) 0)
    (BilateralPredicateFormula "Flying" [Constant "tweety"] true) signs.t
  = Some false.
Proof.
  apply bilateral_glut_never_found.
  intros id Hin. vm_compute in Hin.
  apply list_elem_of_In in Hin.
  destruct Hin as [<-|[]]; eexists; split; reflexivity.
Defined.
(** ** Branch objects, continued *)

Lemma the_branch_id (T : Tableau) (id : nat) : branch_id (the_branch T id) = id.
Proof.
  unfold the_branch.
  destruct (List.find _ (branches T)) as [b|] eqn:Hfind; [|reflexivity].
  apply List.find_some in Hfind as [_ H]. by apply bool_decide_eq_true in H.
Qed.

Lemma the_branch_exists (T : Tableau) (id : nat) :
  (∃ b, b ∈ branches T ∧ branch_id b = id)
  → ∃ b, List.find (λ b, bool_decide (branch_id b = id)) (branches T) = Some b
         ∧ branch_id b = id ∧ the_branch T id = b.
Proof.
  intros (b & Hin & Hid). unfold the_branch.
  destruct (List.find _ (branches T)) as [b'|] eqn:Hfind.
  - exists b'. split; [done|]. split; [|done].
    apply List.find_some in Hfind as [_ H]. by apply bool_decide_eq_true in H.
  - exfalso. apply list_elem_of_In in Hin.
    pose proof (List.find_none _ _ Hfind b Hin) as H. cbn in H.
    apply bool_decide_eq_false in H. by apply H.
Qed.

(** The branch object with id [id'] after the object with id [id] was
    mutated by [g], which keeps the id of the objects it is applied to. *)
Lemma the_branch_update (g : Branch → Branch) (T : Tableau) (id id' : nat) :
  (∀ b, branch_id b = id → branch_id (g b) = id)
  → the_branch (update_branch id g T) id'
    = match List.find (λ b, bool_decide (branch_id b = id')) (branches T) with
      | Some b => if bool_decide (branch_id b = id) then g b else b
      | None => empty_branch id'
      end.
Proof.
  intros Hg. unfold the_branch, update_branch, set_branches. cbn [branches].
  induction (branches T) as [|b bs IH]; [reflexivity|].
  cbn [map List.find].
  destruct (decide (branch_id b = id)) as [Hb|Hb].
  - rewrite (bool_decide_eq_true_2 _ Hb).
    destruct (decide (id = id')) as [<-|Hne].
    + rewrite (bool_decide_eq_true_2 (branch_id (g b) = id) (Hg b Hb)).
      by rewrite (bool_decide_eq_true_2 _ Hb), (bool_decide_eq_true_2 _ Hb).
    + rewrite (bool_decide_eq_false_2 (branch_id (g b) = id')) by
        (rewrite (Hg b Hb); done).
      rewrite (bool_decide_eq_false_2 (branch_id b = id')) by congruence.
      apply IH.
  - rewrite (bool_decide_eq_false_2 _ Hb).
    destruct (decide (branch_id b = id')) as [Hb'|Hb'].
    + rewrite (bool_decide_eq_true_2 _ Hb'). cbn [default].
      by rewrite (bool_decide_eq_false_2 _ Hb).
    + rewrite (bool_decide_eq_false_2 _ Hb'). apply IH.
Qed.

Lemma the_branch_update_other (g : Branch → Branch) (T : Tableau) (id id' : nat) :
  (∀ b, branch_id b = id → branch_id (g b) = id)
  → id' ≠ id
  → the_branch (update_branch id g T) id' = the_branch T id'.
Proof.
  intros Hg Hne. rewrite the_branch_update by done. unfold the_branch.
  destruct (List.find _ (branches T)) as [b|] eqn:Hfind; [|reflexivity].
  apply List.find_some in Hfind as [_ H]. apply bool_decide_eq_true in H.
  cbn [default]. by rewrite bool_decide_eq_false_2 by congruence.
Qed.

Lemma the_branch_update_same (g : Branch → Branch) (T : Tableau) (id : nat) :
  (∀ b, branch_id b = id → branch_id (g b) = id)
  → (∃ b, b ∈ branches T ∧ branch_id b = id)
  → the_branch (update_branch id g T) id = g (the_branch T id).
Proof.
  intros Hg Hex. rewrite the_branch_update by done.
  destruct (the_branch_exists T id Hex) as (b & -> & Hid & ->).
  by rewrite (bool_decide_eq_true_2 _ Hid).
Qed.

Lemma the_branch_update_missing (g : Branch → Branch) (T : Tableau) (id : nat) :
  (∀ b, branch_id b = id → branch_id (g b) = id)
  → ¬ (∃ b, b ∈ branches T ∧ branch_id b = id)
  → the_branch (update_branch id g T) id = empty_branch id.
Proof.
  intros Hg Hno. rewrite the_branch_update by done.
  destruct (List.find _ (branches T)) as [b|] eqn:Hfind; [|reflexivity].
  exfalso. apply Hno. exists b.
  apply List.find_some in Hfind as [Hin H]. apply bool_decide_eq_true in H.
  split; [by apply list_elem_of_In|done].
Qed.

Lemma update_branch_ids (g : Branch → Branch) (T : Tableau) (id : nat) :
  (∀ b, branch_id b = id → branch_id (g b) = id)
  → map branch_id (branches (update_branch id g T)) = map branch_id (branches T).
Proof.
  intros Hg. unfold update_branch, set_branches. cbn [branches].
  induction (branches T) as [|b bs IH]; [reflexivity|].
  cbn [map]. rewrite IH. f_equal.
  destruct (decide (branch_id b = id)) as [Hb|Hb].
  - rewrite (bool_decide_eq_true_2 _ Hb). rewrite Hg; done.
  - by rewrite (bool_decide_eq_false_2 _ Hb).
Qed.

Lemma branch_exists_ids (T T' : Tableau) (id : nat) :
  map branch_id (branches T') = map branch_id (branches T)
  → (∃ b, b ∈ branches T ∧ branch_id b = id)
  → ∃ b, b ∈ branches T' ∧ branch_id b = id.
Proof.
  intros Hids (b & Hin & Hid).
  assert (id ∈ map branch_id (branches T')) as H.
  { rewrite Hids. apply list_elem_of_fmap. by exists b. }
  apply list_elem_of_fmap in H as (b' & -> & Hin'). by exists b'.
Qed.

(** ** States with the same proof tree *)

Lemma same_proof_tree_refl (T : Tableau) : same_proof_tree T T.
Proof. unfold same_proof_tree. by repeat split. Qed.

Lemma same_proof_tree_trans (T1 T2 T3 : Tableau) :
  same_proof_tree T1 T2 → same_proof_tree T2 T3 → same_proof_tree T1 T3.
Proof.
  unfold same_proof_tree.
  intros (A1 & A2 & A3 & A4 & A5 & A6 & A7 & A8 & A9)
         (B1 & B2 & B3 & B4 & B5 & B6 & B7 & B8 & B9).
  repeat (split; [congruence|]).
  intros id. cbn zeta.
  destruct (A9 id) as (C1 & C2 & C3 & C4 & C5 & C6).
  destruct (B9 id) as (D1 & D2 & D3 & D4 & D5 & D6).
  repeat (split; [congruence|]).
  intros key. by rewrite D6, C6.
Qed.

Lemma same_proof_tree_counter (c : nat) (T : Tableau) :
  same_proof_tree T (set_constant_counter c T).
Proof. unfold same_proof_tree. by repeat split. Qed.

Lemma ensure_universal_instantiations_id (b : Branch) :
  branch_id (ensure_universal_instantiations b) = branch_id b.
Proof.
  unfold ensure_universal_instantiations.
  by destruct (_universal_instantiations b).
Qed.

(** A mutation that touches only the lazily created attributes of a branch
    leaves the proof tree as it is. *)
Lemma same_proof_tree_update (g : Branch → Branch) (id : nat) (T : Tableau) :
  (∀ b, branch_id (g b) = branch_id b
        ∧ branch_nodes (g b) = branch_nodes b
        ∧ formula_index (g b) = formula_index b
        ∧ is_closed (g b) = is_closed b
        ∧ ground_terms (g b) = ground_terms b
        ∧ processed (g b) = processed b
        ∧ ∀ key, llm_evaluated_mem key (g b) = llm_evaluated_mem key b)
  → same_proof_tree T (update_branch id g T).
Proof.
  intros Hg.
  assert (∀ b, branch_id b = id → branch_id (g b) = id) as Hid.
  { intros b <-. apply Hg. }
  unfold same_proof_tree.
  repeat (split; [reflexivity|]).
  split; [by apply update_branch_ids|].
  intros id'. cbn zeta. rewrite the_branch_update by done.
  unfold the_branch.
  destruct (List.find _ (branches T)) as [b|]; [|by repeat split].
  cbn [default]. destruct (bool_decide (branch_id b = id)); [|by repeat split].
  destruct (Hg b) as (_ & H1 & H2 & H3 & H4 & H5 & H6). by repeat split.
Qed.

Lemma same_proof_tree_ensure_llm (id : nat) (T : Tableau) :
  same_proof_tree T (update_branch id ensure_llm_evaluated T).
Proof.
  apply same_proof_tree_update. intros b.
  split; [apply ensure_llm_evaluated_id|].
  unfold ensure_llm_evaluated, llm_evaluated_mem.
  destruct (_llm_evaluated b) eqn:H; repeat split; try done.
  intros key. cbn. by rewrite H.
Qed.

Lemma same_proof_tree_ensure_inst (id : nat) (T : Tableau) :
  same_proof_tree T (update_branch id ensure_universal_instantiations T).
Proof.
  apply same_proof_tree_update. intros b.
  unfold ensure_universal_instantiations, llm_evaluated_mem.
  destruct (_universal_instantiations b); by repeat split.
Qed.
(** ** Looking up the rule of a node *)

(** What building the oracle rule does to the state: the proof tree and the
    constant counter stay as they are, and the oracle is asked exactly when
    there is one, the formula is atomic and it is not marked as evaluated
    on the branch; only then can a rule come back. *)
Lemma create_llm_evaluation_rule_effects (sf : SignedFormula) (branch : nat)
    (w : World) :
  let T := tableau w in
  let asked :=
    bool_decide (is_Some (llm_evaluator T)) && is_atomic (sf_formula sf)
    && negb (llm_evaluated_mem (evaluation_key (sf_formula sf))
               (the_branch T branch)) in
  let outcome := _create_llm_evaluation_rule sf branch w in
  same_proof_tree T (tableau outcome.2)
  ∧ _constant_counter (tableau outcome.2) = _constant_counter T
  ∧ oracle_calls outcome.2
    = oracle_calls w ++ (if asked then [(branch, sf_formula sf)] else [])
  ∧ (is_Some outcome.1 → asked = true).
Proof.
  cbn zeta.
  destruct (llm_evaluator (tableau w)) as [evaluator|] eqn:Hev.
  - rewrite is_Some_Some. cbn [andb].
    destruct (is_atomic (sf_formula sf)) eqn:Hat.
    + rewrite (create_llm_evaluation_rule_run sf branch w evaluator Hev Hat).
      cbn zeta.
      pose proof (same_proof_tree_ensure_llm branch (tableau w)) as Hsame.
      assert (llm_evaluated_mem (evaluation_key (sf_formula sf))
                (the_branch (update_branch branch ensure_llm_evaluated (tableau w))
                   branch)
              = llm_evaluated_mem (evaluation_key (sf_formula sf))
                  (the_branch (tableau w) branch)) as ->.
      { destruct Hsame as (_ & _ & _ & _ & _ & _ & _ & _ & Hb).
        destruct (Hb branch) as (_ & _ & _ & _ & _ & Hmem). apply Hmem. }
      cbn [andb].
      destruct (llm_evaluated_mem _ _); cbn [negb].
      * cbn [fst snd tableau oracle_calls]. rewrite app_nil_r.
        split; [exact Hsame|]. split; [reflexivity|]. split; [reflexivity|].
        intros [? ?]. discriminate.
      * destruct (evaluator (sf_formula sf)) as [bv|];
          [destruct (positive_conclusion bv (sf_formula sf)
                     ++ negative_conclusion bv (sf_formula sf))|];
          cbn [fst snd tableau oracle_calls];
          (split; [exact Hsame|]); (split; [reflexivity|]);
          (split; [reflexivity|]); intros _; reflexivity.
    + unfold _create_llm_evaluation_rule, mbind, M_bind, get_tableau.
      rewrite Hev, Hat. cbn. rewrite app_nil_r.
      split; [apply same_proof_tree_refl|]. split; [reflexivity|].
      split; [reflexivity|]. intros [? ?]. discriminate.
  - rewrite (@not_is_Some_None Oracle).
    unfold _create_llm_evaluation_rule, mbind, M_bind, get_tableau.
    rewrite Hev. cbn. rewrite app_nil_r.
    split; [apply same_proof_tree_refl|]. split; [reflexivity|].
    split; [reflexivity|]. intros [? ?]. discriminate.
Qed.

Section EngineExtras.

Variable get_acrq_rule :
  SignedFormula → (nat → Term) → list Term → option (list Term)
  → option FergusonRule * nat.
Variable super_apply_rule : Tableau → TableauNode → nat → RuleInfo → Tableau.
Variable is_complete : Tableau → bool.
Variable _select_optimal_branch : Tableau → option nat.
Variable super_extract_model : Tableau → Branch → option Model.

(** [_get_applicable_rule], step by step. *)
Lemma get_applicable_rule_run (sf : SignedFormula) (branch : nat) (w : World) :
  let T := tableau w in
  let found :=
    get_acrq_rule sf (fresh_constant (_constant_counter T))
      (ground_terms (the_branch T branch))
      (used_constants sf (the_branch T branch)) in
  let T0 :=
    match sf_formula sf, _universal_instantiations (the_branch T branch) with
    | RestrictedUniversalFormula _ _ _, None =>
        update_branch branch ensure_universal_instantiations T
    | _, _ => T
    end in
  let w1 := {| tableau := set_constant_counter (_constant_counter T + found.2) T0;
               oracle_calls := oracle_calls w |} in
  _get_applicable_rule get_acrq_rule sf branch w
  = match found.1 with
    | Some rule =>
        (Some {| name := fr_name rule;
                 rule_type := if is_branching rule then BETA else ALPHA;
                 priority := if is_branching rule then 20 else 10;
                 complexity_cost := length (fr_conclusions rule);
                 conclusions := fr_conclusions rule;
                 instantiation_constant := fr_instantiation_constant rule |},
         w1)
    | None =>
        if bool_decide (is_Some (llm_evaluator T)) && is_atomic (sf_formula sf)
        then _create_llm_evaluation_rule sf branch w1
        else (None, w1)
    end.
Proof.
  cbn zeta.
  unfold _get_applicable_rule, used_constants, mbind, M_bind, get_tableau.
  destruct (sf_formula sf) eqn:Hf; cbn;
    try (destruct (get_acrq_rule sf _ _ None) as [[rule|] calls]; cbn;
         try destruct (is_branching rule); try reflexivity;
         destruct (bool_decide (is_Some (llm_evaluator (tableau w))));
         reflexivity).
  destruct (_universal_instantiations (the_branch (tableau w) branch)); cbn;
    destruct (get_acrq_rule sf _ _ _) as [[rule|] calls]; cbn;
    try destruct (is_branching rule); try reflexivity;
    rewrite andb_false_r; reflexivity.
Qed.

(** The effects of a rule lookup, in one place. *)
Lemma get_applicable_rule_effects (sf : SignedFormula) (branch : nat)
    (w : World) :
  let T := tableau w in
  let found :=
    get_acrq_rule sf (fresh_constant (_constant_counter T))
      (ground_terms (the_branch T branch))
      (used_constants sf (the_branch T branch)) in
  let asked :=
    match found.1 with
    | Some _ => false
    | None =>
        bool_decide (is_Some (llm_evaluator T)) && is_atomic (sf_formula sf)
        && negb (llm_evaluated_mem (evaluation_key (sf_formula sf))
                   (the_branch T branch))
    end in
  let outcome := _get_applicable_rule get_acrq_rule sf branch w in
  same_proof_tree T (tableau outcome.2)
  ∧ _constant_counter (tableau outcome.2) = _constant_counter T + found.2
  ∧ oracle_calls outcome.2
    = oracle_calls w ++ (if asked then [(branch, sf_formula sf)] else []).
Proof.
  cbn zeta. rewrite get_applicable_rule_run. cbn zeta.
  set (found := get_acrq_rule sf _ _ _).
  set (T0 := match sf_formula sf with
             | RestrictedUniversalFormula _ _ _ => _
             | _ => _
             end).
  assert (same_proof_tree (tableau w) T0 ∧ _constant_counter T0
                                           = _constant_counter (tableau w))
    as [Hsame0 Hc0].
  { subst T0. destruct (sf_formula sf); try (split; [apply same_proof_tree_refl|done]).
    destruct (_universal_instantiations _);
      [split; [apply same_proof_tree_refl|done]|].
    split; [apply same_proof_tree_ensure_inst|done]. }
  set (T1 := set_constant_counter (_constant_counter (tableau w) + found.2) T0).
  assert (same_proof_tree (tableau w) T1) as Hsame1.
  { eapply same_proof_tree_trans; [exact Hsame0|].
    apply same_proof_tree_counter. }
  destruct (found.1) as [rule|].
  - cbn [fst snd tableau oracle_calls]. rewrite app_nil_r.
    split; [exact Hsame1|]. split; reflexivity.
  - destruct (bool_decide (is_Some (llm_evaluator (tableau w)))
              && is_atomic (sf_formula sf)) eqn:Hguard.
    + pose proof (create_llm_evaluation_rule_effects sf branch
                    {| tableau := T1; oracle_calls := oracle_calls w |})
        as (Hs & Hc & Hcalls & _).
      cbn [tableau oracle_calls] in Hs, Hc, Hcalls.
      split; [by eapply same_proof_tree_trans|].
      split; [by rewrite Hc|].
      rewrite Hcalls. cbn [andb].
      destruct Hsame1 as (_ & _ & _ & _ & Hev & _ & _ & _ & Hb).
      destruct (Hb branch) as (_ & _ & _ & _ & _ & Hmem).
      by rewrite Hev, Hmem, Hguard.
    + cbn [fst snd tableau oracle_calls andb]. rewrite app_nil_r.
      split; [exact Hsame1|]. split; reflexivity.
Qed.

(** X2.  Looking up the rule of a node never changes the proof tree: the
    nodes, the open and closed lists and the contents of every branch stay
    as they are.  The lookup advances the constant counter by the number of
    constants the rule table drew, and it asks the oracle at most once:
    exactly when the rule table has no rule for the formula, an oracle is
    installed, the formula is atomic and it is not yet marked as evaluated
    on the branch.  A rule of the table thus shadows the oracle. *)
Theorem rule_lookup_leaves_the_tree_alone (sf : SignedFormula) (branch : nat)
    (w : World) :
  let T := tableau w in
  let found :=
    get_acrq_rule sf (fresh_constant (_constant_counter T))
      (ground_terms (the_branch T branch))
      (used_constants sf (the_branch T branch)) in
  let outcome := _get_applicable_rule get_acrq_rule sf branch w in
  same_proof_tree T (tableau outcome.2)
  ∧ _constant_counter (tableau outcome.2) = _constant_counter T + found.2
  ∧ (is_Some found.1 → oracle_calls outcome.2 = oracle_calls w)
  ∧ (found.1 = None
     → oracle_calls outcome.2
       = oracle_calls w
         ++ (if bool_decide (is_Some (llm_evaluator T))
                && is_atomic (sf_formula sf)
                && negb (llm_evaluated_mem (evaluation_key (sf_formula sf))
                           (the_branch T branch))
             then [(branch, sf_formula sf)] else [])).
Proof.
  cbn zeta.
  destruct (get_applicable_rule_effects sf branch w) as (Hsame & Hc & Hcalls).
  split; [exact Hsame|]. split; [exact Hc|].
  split.
  - intros [rule Hrule]. rewrite Hcalls, Hrule. apply app_nil_r.
  - intros Hnone. by rewrite Hcalls, Hnone.
Qed.

Lemma fresh_constant_inj (c1 k1 c2 k2 : nat) :
  fresh_constant c1 k1 = fresh_constant c2 k2 ↔ c1 + k1 = c2 + k2.
Proof.
  unfold fresh_constant. split.
  - intros H. injection H as H.
    change (pretty (c1 + 1 + k1) = pretty (c2 + 1 + k2)) in H.
    apply (inj pretty) in H. lia.
  - intros H. do 2 f_equal. f_equal. lia.
Qed.

(** X3.  Fresh constants never repeat: the constant a call of the generator
    returns depends only on the sum of the counter and the number of the
    call, two calls return the same constant only when these sums agree,
    and since a lookup advances the counter by the number of constants it
    drew, no constant drawn after a lookup equals one drawn during it. *)
Theorem fresh_constants_never_repeat (sf : SignedFormula) (branch : nat)
    (w : World) :
  let T := tableau w in
  let found :=
    get_acrq_rule sf (fresh_constant (_constant_counter T))
      (ground_terms (the_branch T branch))
      (used_constants sf (the_branch T branch)) in
  let T' := tableau (_get_applicable_rule get_acrq_rule sf branch w).2 in
  (∀ c1 k1 c2 k2,
     fresh_constant c1 k1 = fresh_constant c2 k2 ↔ c1 + k1 = c2 + k2)
  ∧ ∀ k k', k < found.2
            → fresh_constant (_constant_counter T') k'
              ≠ fresh_constant (_constant_counter T) k.
Proof.
  cbn zeta. split; [apply fresh_constant_inj|].
  intros k k' Hk Heq. apply fresh_constant_inj in Heq.
  destruct (get_applicable_rule_effects sf branch w) as (_ & Hc & _).
  cbn zeta in Hc. rewrite Hc in Heq. lia.
Qed.
(** ** [apply_rule] on an oracle rule *)

Lemma the_branch_missing (T : Tableau) (id : nat) :
  id ∉ map branch_id (branches T) → the_branch T id = empty_branch id.
Proof.
  intros Hno. unfold the_branch.
  destruct (List.find _ (branches T)) as [b|] eqn:Hfind; [|reflexivity].
  exfalso. apply Hno.
  apply List.find_some in Hfind as [Hin H]. apply bool_decide_eq_true in H.
  apply list_elem_of_fmap. exists b. split; [done|by apply list_elem_of_In].
Qed.

Lemma branch_listed (T : Tableau) (id : nat) :
  id ∈ map branch_id (branches T) ↔ ∃ b, b ∈ branches T ∧ branch_id b = id.
Proof.
  rewrite list_elem_of_fmap. split; intros (b & H1 & H2); exists b; done.
Qed.

Lemma close_branch_branches (id : nat) (T : Tableau) :
  branches (close_branch id T) = branches T.
Proof. unfold close_branch. by destruct (bool_decide _). Qed.

Lemma the_branch_close_branch (id id' : nat) (T : Tableau) :
  the_branch (close_branch id T) id' = the_branch T id'.
Proof. unfold the_branch. by rewrite close_branch_branches. Qed.

(** One conclusion of an oracle rule put on the branch: the state before the
    test of the verdict of [add_formula]. *)
Lemma add_conclusion_step (node : TableauNode) (branch : nat)
    (rule_name : string) (signed_formula : SignedFormula) (T : Tableau) :
  let new_node := conclusion_node node rule_name (node_counter T) 0 signed_formula in
  let added := add_formula (the_branch T branch) signed_formula new_node in
  let T2 := update_branch branch (λ _, added.1) (append_node new_node T) in
  nodes T2 = nodes T ++ [new_node]
  ∧ node_counter T2 = node_counter T + 1
  ∧ open_branches T2 = open_branches T
  ∧ closed_branches T2 = closed_branches T
  ∧ _constant_counter T2 = _constant_counter T
  ∧ llm_evaluator T2 = llm_evaluator T
  ∧ early_termination T2 = early_termination T
  ∧ max_branching_factor T2 = max_branching_factor T
  ∧ map branch_id (branches T2) = map branch_id (branches T)
  ∧ (∀ id', id' ≠ branch → the_branch T2 id' = the_branch T id')
  ∧ (branch ∈ map branch_id (branches T) → the_branch T2 branch = added.1).
Proof.
  cbn zeta.
  set (new_node := conclusion_node node rule_name (node_counter T) 0 signed_formula).
  set (b' := (add_formula (the_branch T branch) signed_formula new_node).1).
  assert (∀ b, branch_id b = branch → branch_id ((λ _ : Branch, b') b) = branch)
    as Hid.
  { intros b _. subst b'. cbn. apply the_branch_id. }
  repeat (split; [reflexivity|]).
  split; [by rewrite update_branch_ids|].
  split.
  - intros id' Hne. by rewrite the_branch_update_other.
  - intros Hin. apply branch_listed in Hin.
    rewrite the_branch_update_same; [done|done|].
    exact Hin.
Qed.

(** The loop of [apply_rule] over the conclusions: what it has done when it
    is left, with [k] the number of conclusions it got to. *)
Lemma add_llm_conclusions_effects (node : TableauNode) (branch : nat)
    (rule_name : string) (cs : list SignedFormula) (T : Tableau) :
  let out := add_llm_conclusions node branch rule_name cs T in
  let moved := out.2 && bool_decide (branch ∈ open_branches T) in
  ∃ k,
    k ≤ length cs
    ∧ (out.2 = false → k = length cs)
    ∧ (out.2 = true → 0 < k)
    ∧ nodes out.1
      = nodes T ++ imap (conclusion_node node rule_name (node_counter T)) (take k cs)
    ∧ node_counter out.1 = node_counter T + k
    ∧ open_branches out.1
      = (if moved then remove_first branch (open_branches T) else open_branches T)
    ∧ closed_branches out.1
      = (if moved then closed_branches T ++ [branch] else closed_branches T)
    ∧ _constant_counter out.1 = _constant_counter T
    ∧ llm_evaluator out.1 = llm_evaluator T
    ∧ early_termination out.1 = early_termination T
    ∧ max_branching_factor out.1 = max_branching_factor T
    ∧ map branch_id (branches out.1) = map branch_id (branches T)
    ∧ (∀ id', id' ≠ branch → the_branch out.1 id' = the_branch T id')
    ∧ (branch ∈ map branch_id (branches T)
       → is_closed (the_branch out.1 branch)
         = is_closed (the_branch T branch) || out.2
         ∧ _llm_evaluated (the_branch out.1 branch)
           = _llm_evaluated (the_branch T branch)
         ∧ processed (the_branch out.1 branch) = processed (the_branch T branch)
         ∧ map node_formula (branch_nodes (the_branch out.1 branch))
           = map node_formula (branch_nodes (the_branch T branch)) ++ take k cs
         ∧ map fst (formula_index (the_branch out.1 branch))
           = map fst (formula_index (the_branch T branch)) ++ take k cs).
Proof.
  cbn zeta. revert T. induction cs as [|sf rest IH]; intros T.
  - exists 0. cbn [add_llm_conclusions fst snd andb length take imap].
    rewrite !app_nil_r, Nat.add_0_r.
    split; [done|]. split; [done|]. split; [done|].
    repeat (split; [reflexivity|]).
    intros _. by rewrite orb_false_r.
  - cbn [add_llm_conclusions].
    set (new_node := {| node_id := node_counter T; node_formula := sf;
                        node_parent := Some (node_id node);
                        node_rule := Some rule_name |}).
    assert (conclusion_node node rule_name (node_counter T) 0 sf = new_node)
      as Hnew.
    { unfold conclusion_node, new_node. by rewrite Nat.add_0_r. }
    pose proof (add_conclusion_step node branch rule_name sf T) as Hstep.
    cbn zeta in Hstep. rewrite Hnew in Hstep.
    change (the_branch (append_node new_node T) branch)
      with (the_branch T branch).
    destruct (add_formula (the_branch T branch) sf new_node) as [b' closed]
      eqn:Hadd.
    cbn [fst] in Hstep.
    set (T2 := update_branch branch (λ _, b') (append_node new_node T)) in *.
    destruct Hstep as (Hn & Hc & Ho & Hcl & Hcc & Hev & Het & Hmb & Hids
                       & Hother & Hsame).
    assert (is_closed b' = is_closed (the_branch T branch) || closed
            ∧ _llm_evaluated b' = _llm_evaluated (the_branch T branch)
            ∧ processed b' = processed (the_branch T branch)
            ∧ branch_nodes b' = branch_nodes (the_branch T branch) ++ [new_node]
            ∧ formula_index b'
              = formula_index (the_branch T branch) ++ [(sf, node_id new_node)])
      as (Hb1 & Hb2 & Hb3 & Hb4 & Hb5).
    { unfold add_formula in Hadd. injection Hadd as <- <-. done. }
    destruct closed.
    + exists 1. cbn [fst snd andb length take imap].
      split; [lia|]. split; [done|]. split; [lia|].
      split.
      { unfold close_branch. destruct (bool_decide _); cbn [nodes];
          by rewrite Hn, take_0, Hnew. }
      split.
      { unfold close_branch. by destruct (bool_decide _). }
      split.
      { unfold close_branch. rewrite Ho. by destruct (bool_decide _). }
      split.
      { unfold close_branch. rewrite Ho, Hcl. by destruct (bool_decide _). }
      split; [unfold close_branch; by destruct (bool_decide _)|].
      split; [unfold close_branch; by destruct (bool_decide _)|].
      split; [unfold close_branch; by destruct (bool_decide _)|].
      split; [unfold close_branch; by destruct (bool_decide _)|].
      split; [by rewrite close_branch_branches|].
      split.
      { intros id' Hne. rewrite the_branch_close_branch. by apply Hother. }
      intros Hin. rewrite the_branch_close_branch, (Hsame Hin).
      rewrite Hb1, Hb2, Hb3, Hb4, Hb5, take_0, !map_app.
      by rewrite orb_true_r.
    + destruct (IH T2) as (k & Hk & Hfull & Hpos & Hn' & Hc' & Ho' & Hcl' & Hcc'
                           & Hev' & Het' & Hmb' & Hids' & Hother' & Hsame').
      exists (S k). cbn [length take imap].
      split; [lia|].
      split; [intros H; by rewrite (Hfull H)|].
      split; [lia|].
      split.
      { rewrite Hn', Hn, Hc, <- app_assoc, Hnew. cbn [app]. do 2 f_equal.
        apply imap_ext. intros i x _. unfold conclusion_node, compose.
        f_equal. lia. }
      split; [rewrite Hc', Hc; lia|].
      split; [by rewrite Ho', Ho|].
      split; [by rewrite Hcl', Ho, Hcl|].
      split; [congruence|]. split; [congruence|]. split; [congruence|].
      split; [congruence|]. split; [congruence|].
      split.
      { intros id' Hne. rewrite Hother' by done. by apply Hother. }
      intros Hin.
      destruct Hsame' as (Hs1 & Hs2 & Hs3 & Hs4 & Hs5); [by rewrite Hids|].
      rewrite Hs1, Hs2, Hs3, Hs4, Hs5, (Hsame Hin), Hb1, Hb2, Hb3, Hb4, Hb5.
      rewrite orb_false_r, !map_app, <- !app_assoc. done.
Qed.

(** [apply_rule] on an oracle rule, unfolded. *)
Lemma apply_llm_rule_run (node : TableauNode) (branch : nat)
    (rule_info : RuleInfo) (T : Tableau) :
  String.prefix "LLM-Eval" (name rule_info) = true
  → apply_rule super_apply_rule node branch rule_info T
    = match conclusions rule_info with
      | [cs] =>
          let out := add_llm_conclusions node branch (name rule_info) cs T in
          if out.2 then out.1
          else update_branch branch
                 (mark_llm_evaluated
                    (evaluation_key (sf_formula (node_formula node))))
                 out.1
      | _ => T
      end.
Proof.
  intros Hname. unfold apply_rule. rewrite Hname.
  destruct (conclusions rule_info) as [|cs [|]]; try reflexivity.
  by destruct (add_llm_conclusions _ _ _ _ _).
Qed.

Lemma mark_llm_evaluated_id (key : string) (b : Branch) :
  branch_id (mark_llm_evaluated key b) = branch_id b.
Proof. reflexivity. Qed.

Lemma mark_llm_evaluated_mem (key key' : string) (b : Branch) :
  llm_evaluated_mem key' (mark_llm_evaluated key b)
  = bool_decide (key' = key) || llm_evaluated_mem key' b.
Proof.
  unfold llm_evaluated_mem, mark_llm_evaluated. cbn.
  apply eq_true_iff_eq.
  rewrite orb_true_iff, !bool_decide_eq_true. set_solver.
Qed.

(** ** The open list: removing the first occurrence *)

Lemma remove_first_subseteq (x y : nat) (l : list nat) :
  y ∈ remove_first x l → y ∈ l.
Proof.
  induction l as [|z l IH]; cbn; [done|].
  destruct (bool_decide (x = z)); [by right|].
  intros [->|H]%elem_of_cons; [left|right; by apply IH].
Qed.

Lemma remove_first_NoDup (x : nat) (l : list nat) :
  NoDup l → NoDup (remove_first x l) ∧ x ∉ remove_first x l.
Proof.
  induction 1 as [|z l Hz Hl IH]; cbn.
  - split; [constructor|]. by intros ?%elem_of_nil.
  - destruct (decide (x = z)) as [->|Hne].
    + rewrite bool_decide_eq_true_2 by done. done.
    + rewrite bool_decide_eq_false_2 by done. destruct IH as [IH1 IH2].
      split.
      * constructor; [|done]. intros H. apply Hz.
        by eapply remove_first_subseteq.
      * intros [?|?]%elem_of_cons; done.
Qed.

Lemma remove_first_Permutation (x : nat) (l : list nat) :
  x ∈ l → l ≡ₚ x :: remove_first x l.
Proof.
  induction l as [|z l IH]; [by intros ?%elem_of_nil|].
  intros Hin. cbn. destruct (decide (x = z)) as [->|Hne].
  - by rewrite bool_decide_eq_true_2 by done.
  - rewrite bool_decide_eq_false_2 by done.
    apply elem_of_cons in Hin as [?|Hin]; [done|].
    rewrite (IH Hin) at 1. apply Permutation_swap.
Qed.

(** X4.  The nodes an oracle rule adds.  [apply_rule] on a rule whose name
    starts with [LLM-Eval] appends to [self.nodes] one node per conclusion it
    gets to, in the order of the conclusion list and starting with its first
    formula, numbered from the node counter upwards, each with the node the
    rule was applied to as parent and the name of the rule; the counter
    grows by their number, so that it stays the length of the node list.
    When the rule has no conclusion list or more than one, the tableau is
    left exactly as it was. *)
Theorem oracle_rule_node_accounting (node : TableauNode) (branch : nat)
    (rule_info : RuleInfo) (T : Tableau) :
  String.prefix "LLM-Eval" (name rule_info) = true
  → let T' := apply_rule super_apply_rule node branch rule_info T in
    ∃ added,
      nodes T'
      = nodes T
        ++ imap (conclusion_node node (name rule_info) (node_counter T)) added
      ∧ node_counter T' = node_counter T + length added
      ∧ (node_counter T = length (nodes T) → node_counter T' = length (nodes T'))
      ∧ match conclusions rule_info with
        | [cs] => added `prefix_of` cs ∧ (cs ≠ [] → added ≠ [])
        | _ => added = [] ∧ T' = T
        end.
Proof.
  intros Hname. cbn zeta. rewrite apply_llm_rule_run by done.
  assert (∀ added T',
            nodes T'
            = nodes T
              ++ imap (conclusion_node node (name rule_info) (node_counter T))
                   added
            → node_counter T' = node_counter T + length added
            → node_counter T = length (nodes T)
            → node_counter T' = length (nodes T')) as Hinv.
  { intros added T' -> -> ->. by rewrite length_app, length_imap. }
  destruct (conclusions rule_info) as [|cs [|cs' more]].
  - exists []. cbn. rewrite app_nil_r, Nat.add_0_r. done.
  - cbn zeta.
    destruct (add_llm_conclusions_effects node branch (name rule_info) cs T)
      as (k & Hk & Hfull & Hpos & Hn & Hc & _).
    cbn zeta in *.
    exists (take k cs).
    assert (length (take k cs) = k) as Hlen by (rewrite length_take; lia).
    assert (take k cs `prefix_of` cs ∧ (cs ≠ [] → take k cs ≠ [])) as Hshape.
    { split; [exists (drop k cs); by rewrite take_drop|].
      intros Hcs Hnil. rewrite Hnil in Hlen. cbn in Hlen. subst k.
      destruct (add_llm_conclusions _ _ _ _ _).2 eqn:Hret.
      - specialize (Hpos eq_refl). lia.
      - specialize (Hfull eq_refl). destruct cs; [done|]. cbn in Hfull. lia. }
    destruct (add_llm_conclusions node branch (name rule_info) cs T).2.
    + split; [done|]. split; [by rewrite Hlen|].
      split; [|done]. apply (Hinv (take k cs)); [done|by rewrite Hlen].
    + assert (nodes (update_branch branch
                       (mark_llm_evaluated
                          (evaluation_key (sf_formula (node_formula node))))
                       (add_llm_conclusions node branch (name rule_info) cs T).1)
              = nodes T
                ++ imap (conclusion_node node (name rule_info) (node_counter T))
                     (take k cs)) as Hn2 by exact Hn.
      assert (node_counter
                (update_branch branch
                   (mark_llm_evaluated
                      (evaluation_key (sf_formula (node_formula node))))
                   (add_llm_conclusions node branch (name rule_info) cs T).1)
              = node_counter T + length (take k cs)) as Hc2
        by (rewrite Hlen; exact Hc).
      split; [done|]. split; [done|]. split; [|done].
      by apply (Hinv (take k cs)).
  - exists []. cbn. rewrite app_nil_r, Nat.add_0_r. done.
Qed.

(** X5.  The mark of an evaluated atom.  When [apply_rule] has put all the
    conclusions of an oracle rule on a branch, the atom of the node is
    marked as evaluated on that branch, the open and closed lists are as
    before, and from then on [_create_llm_evaluation_rule] gives no rule for
    that atom on the branch, under any sign, and does not call the oracle.
    When a conclusion closes the branch, the method returns at once: the
    branch is closed and is moved to the closed list if it was open, and no
    mark is set. *)
Theorem oracle_rule_marks_atom_unless_branch_closes (node : TableauNode)
    (branch : nat) (rule_info : RuleInfo) (cs : list SignedFormula)
    (T : Tableau) :
  String.prefix "LLM-Eval" (name rule_info) = true
  → conclusions rule_info = [cs]
  → branch ∈ map branch_id (branches T)
  → let T' := apply_rule super_apply_rule node branch rule_info T in
    let φ := sf_formula (node_formula node) in
    let b := the_branch T branch in
    let b' := the_branch T' branch in
    if (add_llm_conclusions node branch (name rule_info) cs T).2
    then
      is_closed b' = true
      ∧ (∀ key, llm_evaluated_mem key b' = llm_evaluated_mem key b)
      ∧ (branch ∈ open_branches T
         → open_branches T' = remove_first branch (open_branches T)
           ∧ closed_branches T' = closed_branches T ++ [branch])
      ∧ (branch ∉ open_branches T
         → open_branches T' = open_branches T
           ∧ closed_branches T' = closed_branches T)
    else
      is_closed b' = is_closed b
      ∧ length (nodes T') = length (nodes T) + length cs
      ∧ open_branches T' = open_branches T
      ∧ closed_branches T' = closed_branches T
      ∧ (∀ key, llm_evaluated_mem key b'
                = bool_decide (key = evaluation_key φ) || llm_evaluated_mem key b)
      ∧ ∀ s w,
          tableau w = T'
          → (_create_llm_evaluation_rule (s ▷ φ) branch w).1 = None
            ∧ oracle_calls (_create_llm_evaluation_rule (s ▷ φ) branch w).2
              = oracle_calls w.
Proof.
  intros Hname Hcs Hin. cbn zeta. rewrite apply_llm_rule_run by done.
  rewrite Hcs. cbn zeta.
  destruct (add_llm_conclusions_effects node branch (name rule_info) cs T)
    as (k & Hk & Hfull & Hpos & Hn & Hc & Ho & Hcl & _ & _ & _ & _ & Hids
        & _ & Hsame).
  cbn zeta in *.
  destruct (Hsame Hin) as (Hs1 & Hs2 & _ & _).
  destruct (add_llm_conclusions node branch (name rule_info) cs T)
    as [T1 returned].
  cbn [fst snd] in *. destruct returned; cbn [andb] in *.
  - split; [by rewrite Hs1, orb_true_r|].
    split; [intros key; unfold llm_evaluated_mem; by rewrite Hs2|].
    split.
    + intros Hopen. by rewrite Ho, Hcl, bool_decide_eq_true_2 by done.
    + intros Hopen. by rewrite Ho, Hcl, bool_decide_eq_false_2 by done.
  - assert (the_branch
              (update_branch branch
                 (mark_llm_evaluated
                    (evaluation_key (sf_formula (node_formula node)))) T1)
              branch
            = mark_llm_evaluated
                (evaluation_key (sf_formula (node_formula node)))
                (the_branch T1 branch)) as Hb'.
    { apply the_branch_update_same; [done|].
      apply branch_listed. by rewrite Hids. }
    assert (∀ key,
              llm_evaluated_mem key
                (the_branch
                   (update_branch branch
                      (mark_llm_evaluated
                         (evaluation_key (sf_formula (node_formula node)))) T1)
                   branch)
              = bool_decide (key = evaluation_key (sf_formula (node_formula node)))
                || llm_evaluated_mem key (the_branch T branch)) as Hmarks.
    { intros key. rewrite Hb', mark_llm_evaluated_mem. f_equal.
      unfold llm_evaluated_mem. by rewrite Hs2. }
    split; [rewrite Hb'; cbn; by rewrite Hs1, orb_false_r|].
    split.
    { change (length (nodes T1) = length (nodes T) + length cs).
      rewrite Hn, length_app, length_imap, length_take.
      rewrite (Hfull eq_refl). lia. }
    split; [exact Ho|]. split; [exact Hcl|]. split; [exact Hmarks|].
    intros s w Hw.
    pose proof (create_llm_evaluation_rule_effects
                  (s ▷ sf_formula (node_formula node)) branch w)
      as (_ & _ & Hcalls & Hrule).
    cbn zeta in Hcalls, Hrule. cbn [sf_formula] in Hcalls, Hrule.
    assert (llm_evaluated_mem (evaluation_key (sf_formula (node_formula node)))
              (the_branch (tableau w) branch) = true) as Hmem.
    { rewrite Hw, Hmarks. by rewrite bool_decide_eq_true_2. }
    rewrite Hmem in Hcalls, Hrule.
    cbn [negb] in Hcalls, Hrule. rewrite andb_false_r in Hcalls, Hrule.
    rewrite app_nil_r in Hcalls. split; [|exact Hcalls].
    destruct (_create_llm_evaluation_rule _ branch w).1 as [r|] eqn:Hr;
      [|reflexivity].
    exfalso. by discriminate Hrule.
Qed.

(** X6.  The open list stays sound.  If no branch is listed twice as open
    and no open branch is closed, the same holds after [apply_rule] on an
    oracle rule; no branch is lost or duplicated between the open and the
    closed list, and every branch other than the one the rule is applied to
    stays as it was. *)
Theorem oracle_rule_keeps_open_list_sound (node : TableauNode) (branch : nat)
    (rule_info : RuleInfo) (T : Tableau) :
  String.prefix "LLM-Eval" (name rule_info) = true
  → NoDup (open_branches T)
  → (∀ id, id ∈ open_branches T → is_closed (the_branch T id) = false)
  → let T' := apply_rule super_apply_rule node branch rule_info T in
    NoDup (open_branches T')
    ∧ (∀ id, id ∈ open_branches T' → is_closed (the_branch T' id) = false)
    ∧ open_branches T' ++ closed_branches T'
      ≡ₚ open_branches T ++ closed_branches T
    ∧ ∀ id', id' ≠ branch → the_branch T' id' = the_branch T id'.
Proof.
  intros Hname Hnodup Hopen. cbn zeta. rewrite apply_llm_rule_run by done.
  destruct (conclusions rule_info) as [|cs [|cs' more]]; [done| |done].
  cbn zeta.
  destruct (add_llm_conclusions_effects node branch (name rule_info) cs T)
    as (k & _ & _ & _ & _ & _ & Ho & Hcl & _ & _ & _ & _ & Hids
        & Hother & Hsame).
  cbn zeta in *.
  destruct (add_llm_conclusions node branch (name rule_info) cs T)
    as [T1 returned].
  cbn [fst snd] in *. destruct returned; cbn [andb] in *.
  - destruct (decide (branch ∈ open_branches T)) as [Hin|Hin].
    + rewrite bool_decide_eq_true_2 in Ho, Hcl by done.
      destruct (remove_first_NoDup branch _ Hnodup) as [Hnd Hgone].
      rewrite Ho, Hcl.
      split; [done|]. split.
      { intros id Hid. rewrite Hother.
        - apply Hopen. by eapply remove_first_subseteq.
        - intros ->. done. }
      split; [|done].
      rewrite (remove_first_Permutation branch (open_branches T) Hin) at 2.
      rewrite (Permutation_app_comm (closed_branches T) [branch]). cbn.
      symmetry. apply Permutation_middle.
    + rewrite bool_decide_eq_false_2 in Ho, Hcl by done.
      rewrite Ho, Hcl. split; [done|]. split; [|done].
      intros id Hid. rewrite Hother; [by apply Hopen|].
      intros ->. done.
  - change (open_branches (update_branch branch
              (mark_llm_evaluated
                 (evaluation_key (sf_formula (node_formula node)))) T1))
      with (open_branches T1).
    change (closed_branches (update_branch branch
              (mark_llm_evaluated
                 (evaluation_key (sf_formula (node_formula node)))) T1))
      with (closed_branches T1).
    rewrite Ho, Hcl. split; [done|].
    assert (∀ id', id' ≠ branch
              → the_branch
                  (update_branch branch
                     (mark_llm_evaluated
                        (evaluation_key (sf_formula (node_formula node)))) T1)
                  id'
                = the_branch T id') as Hother'.
    { intros id' Hne. rewrite the_branch_update_other by done.
      by apply Hother. }
    split; [|done].
    intros id Hid. destruct (decide (id = branch)) as [->|Hne].
    + destruct (decide (branch ∈ map branch_id (branches T))) as [Hin|Hin].
      * rewrite the_branch_update_same;
          [|done|apply branch_listed; by rewrite Hids].
        destruct (Hsame Hin) as (Hs1 & _). cbn. rewrite Hs1, orb_false_r.
        by apply Hopen.
      * rewrite the_branch_update_missing; [done|done|].
        intros Hex. apply Hin. rewrite <- Hids. by apply branch_listed.
    + rewrite Hother' by done. by apply Hopen.
Qed.

(** ** The main loop of [construct] *)

Abbreviation loop := (construct_loop get_acrq_rule super_apply_rule is_complete
                        _select_optimal_branch).
Abbreviation run := (construct_with get_acrq_rule super_apply_rule is_complete
                       _select_optimal_branch super_extract_model).
Abbreviation body := (loop_body get_acrq_rule super_apply_rule
                        _select_optimal_branch).
Abbreviation scan := (_get_prioritized_rules get_acrq_rule).

(** The rule scan of a branch: it leaves the proof tree alone, and every
    call it makes to the oracle is for the atom of one of the nodes, on the
    branch scanned. *)
Lemma collect_rules_effects (branch : nat) (nds : list TableauNode) (w : World) :
  let out := collect_rules get_acrq_rule branch nds w in
  same_proof_tree (tableau w) (tableau out.2)
  ∧ ∃ extra,
      oracle_calls out.2 = oracle_calls w ++ extra
      ∧ Forall (λ call, call.1 = branch ∧ is_atomic call.2 = true) extra
      ∧ (llm_evaluator (tableau w) = None → extra = []).
Proof.
  cbn zeta. revert w. induction nds as [|node rest IH]; intros w.
  - cbn. split; [apply same_proof_tree_refl|].
    exists []. by rewrite app_nil_r.
  - cbn [collect_rules]. unfold mbind, M_bind.
    pose proof (get_applicable_rule_effects (node_formula node) branch w)
      as (Hsame & _ & Hcalls).
    cbn zeta in Hsame, Hcalls.
    destruct (_get_applicable_rule get_acrq_rule (node_formula node) branch w)
      as [rule_info w1].
    cbn [fst snd] in Hsame, Hcalls.
    destruct (IH w1) as (Hsame' & extra & Hcalls' & Hall & Hnone).
    destruct (collect_rules get_acrq_rule branch rest w1) as [others w2].
    unfold mret, M_ret. cbn [fst snd] in *.
    split; [by eapply same_proof_tree_trans|].
    assert (llm_evaluator (tableau w1) = llm_evaluator (tableau w)) as Hev
      by apply Hsame.
    eexists. split; [rewrite Hcalls', Hcalls, <- app_assoc; reflexivity|].
    split.
    + apply Forall_app. split; [|done].
      destruct (get_acrq_rule _ _ _ _).1; [constructor|].
      destruct (is_atomic (sf_formula (node_formula node))) eqn:Hat;
        [|rewrite andb_false_r; constructor].
      destruct (_ && _ && _); constructor; [done|constructor].
    + intros Hno. rewrite Hnone by congruence. rewrite Hno.
      rewrite (@not_is_Some_None Oracle). cbn [andb].
      by destruct (get_acrq_rule _ _ _ _).1.
Qed.

Lemma scan_effects (branch : nat) (w : World) :
  let out := scan branch w in
  same_proof_tree (tableau w) (tableau out.2)
  ∧ ∃ extra,
      oracle_calls out.2 = oracle_calls w ++ extra
      ∧ Forall (λ call, call.1 = branch ∧ is_atomic call.2 = true) extra
      ∧ (llm_evaluator (tableau w) = None → extra = []).
Proof.
  cbn zeta. unfold _get_prioritized_rules, mbind, M_bind, get_tableau.
  pose proof (collect_rules_effects branch
                (pending_nodes (the_branch (tableau w) branch)) w) as H.
  cbn zeta in H.
  by destruct (collect_rules get_acrq_rule branch _ w) as [found w1].
Qed.

(** The early-termination test creates missing [_llm_evaluated] sets and
    changes nothing else. *)
Lemma early_termination_scan_effects (open : list nat) (T : Tableau) :
  same_proof_tree T (early_termination_scan open T).1.
Proof.
  revert T. induction open as [|branch rest IH]; intros T;
    [apply same_proof_tree_refl|].
  cbn [early_termination_scan].
  pose proof (same_proof_tree_ensure_llm branch T) as Hsame.
  destruct (all_nodes_evaluated _); [|exact Hsame].
  eapply same_proof_tree_trans; [exact Hsame|apply IH].
Qed.

Lemma apply_llm_rule_evaluator (node : TableauNode) (branch : nat)
    (rule_info : RuleInfo) (T : Tableau) :
  String.prefix "LLM-Eval" (name rule_info) = true
  → llm_evaluator (apply_rule super_apply_rule node branch rule_info T)
    = llm_evaluator T.
Proof.
  intros Hname. rewrite apply_llm_rule_run by done.
  destruct (conclusions rule_info) as [|cs [|cs' more]]; [done| |done].
  cbn zeta.
  destruct (add_llm_conclusions_effects node branch (name rule_info) cs T)
    as (k & _ & _ & _ & _ & _ & _ & _ & _ & Hev & _).
  cbn zeta in Hev.
  by destruct (add_llm_conclusions node branch (name rule_info) cs T).2.
Qed.

(** One pass through the body of the loop, unfolded. *)
Lemma loop_body_run (w : World) :
  body w
  = match _select_optimal_branch (tableau w) with
    | None => (Break, w)
    | Some selected_branch =>
        let found := scan selected_branch w in
        match found.1 with
        | [] => (Break, found.2)
        | (node, rule_info) :: _ =>
            let T1 := apply_rule super_apply_rule node selected_branch rule_info
                        (tableau found.2) in
            if early_termination T1 && bool_decide (0 < length (open_branches T1))
            then
              match llm_evaluator T1 with
              | None => (Continue, {| tableau := T1;
                                      oracle_calls := oracle_calls found.2 |})
              | Some _ =>
                  let tested := early_termination_scan (open_branches T1) T1 in
                  (if tested.2 then Break else Continue,
                   {| tableau := tested.1;
                      oracle_calls := oracle_calls found.2 |})
              end
            else (Continue, {| tableau := T1;
                               oracle_calls := oracle_calls found.2 |})
        end
    end.
Proof.
  unfold loop_body, mbind, M_bind, get_tableau. cbn zeta.
  destruct (_select_optimal_branch (tableau w)) as [selected|]; [|reflexivity].
  destruct (_get_prioritized_rules get_acrq_rule selected w) as [rules w1].
  cbn [fst snd].
  destruct rules as [|[node rule_info] others]; [reflexivity|].
  unfold modify_tableau. cbn [tableau oracle_calls].
  destruct (early_termination _ && _); [|reflexivity].
  destruct (llm_evaluator _); [|reflexivity].
  by destruct (early_termination_scan _ _).
Qed.

(** The oracle calls of one pass: all on the selected branch, all about
    atoms, and none when the tableau has no oracle. *)
Lemma loop_body_calls (w : World) :
  ∃ extra,
    oracle_calls (body w).2 = oracle_calls w ++ extra
    ∧ Forall (λ call, is_atomic call.2 = true
                      ∧ _select_optimal_branch (tableau w) = Some call.1) extra
    ∧ (llm_evaluator (tableau w) = None → extra = []).
Proof.
  rewrite loop_body_run.
  destruct (_select_optimal_branch (tableau w)) as [selected|];
    [|exists []; by rewrite app_nil_r].
  destruct (scan_effects selected w) as (_ & extra & Hcalls & Hall & Hnone).
  cbn zeta in *.
  exists extra.
  assert (Forall (λ call, is_atomic call.2 = true ∧ Some selected = Some call.1)
            extra) as Hall'.
  { eapply Forall_impl; [exact Hall|]. intros call [-> ?]. done. }
  destruct (scan selected w).1 as [|[node rule_info] others]; [done|].
  destruct (early_termination _ && _); [|done].
  destruct (llm_evaluator (apply_rule _ _ _ _ _)); done.
Qed.

(** X7.  Without an oracle the early-termination test never ends the loop of
    [construct]: when a pass through the body leaves the loop with a [break]
    and the tableau has no oracle, either no branch was selected or the
    selected branch had no applicable rule.  (The [break] of the branch
    without oracle only leaves the inner [for] loop.) *)
Theorem early_termination_needs_an_oracle (w w' : World) :
  body w = (Break, w')
  → llm_evaluator (tableau w') = None
  → _select_optimal_branch (tableau w) = None
    ∨ ∃ selected_branch,
        _select_optimal_branch (tableau w) = Some selected_branch
        ∧ (scan selected_branch w).1 = [].
Proof.
  rewrite loop_body_run. intros Hbody Hnone.
  destruct (_select_optimal_branch (tableau w)) as [selected|]; [|by left].
  right. exists selected. split; [done|].
  cbn zeta in Hbody.
  destruct (scan selected w).1 as [|[node rule_info] others]; [done|].
  exfalso.
  destruct (early_termination _ && _); [|discriminate].
  destruct (llm_evaluator
              (apply_rule super_apply_rule node selected rule_info
                 (tableau (scan selected w).2))) as [evaluator|] eqn:Hev;
    [|discriminate].
  injection Hbody as _ <-. cbn [tableau] in Hnone.
  pose proof (early_termination_scan_effects
                (open_branches
                   (apply_rule super_apply_rule node selected rule_info
                      (tableau (scan selected w).2)))
                (apply_rule super_apply_rule node selected rule_info
                   (tableau (scan selected w).2))) as Hsame.
  destruct Hsame as (_ & _ & _ & _ & Hev' & _).
  congruence.
Qed.

(** The oracle calls of the loop. *)
Lemma construct_loop_calls (fuel iteration passes : nat) (w w' : World) :
  loop fuel iteration w = Some (passes, w')
  → ∃ extra,
      oracle_calls w' = oracle_calls w ++ extra
      ∧ Forall (λ call, is_atomic call.2 = true) extra.
Proof.
  revert iteration w. induction fuel as [|fuel IH]; intros iteration w;
    [discriminate|].
  rewrite construct_loop_unfold.
  destruct (loop_condition is_complete iteration (tableau w)).
  - destruct (loop_body_calls w) as (extra & Hcalls & Hall & _).
    assert (Forall (λ call : nat * Formula, is_atomic call.2 = true) extra)
      as Hall' by (eapply Forall_impl; [exact Hall|]; by intros call [? _]).
    destruct (body w) as [[|] w1]; cbn [snd] in Hcalls.
    + intros H. destruct (IH _ _ H) as (extra' & Hcalls' & Hall'').
      exists (extra ++ extra'). split; [by rewrite Hcalls', Hcalls, app_assoc|].
      by apply Forall_app.
    + intros [= _ <-]. by exists extra.
  - intros [= _ <-]. exists []. by rewrite app_nil_r.
Qed.

(** X8.  The oracle is asked about atoms only: [construct] returns for every
    tableau, and every call it has made to the evaluator is for an atomic
    formula, whatever the rule table and the inherited methods do. *)
Theorem oracle_is_asked_about_atoms_only (T : Tableau) :
  ∃ result passes calls,
    run (S max_iterations) T = Some (result, passes, calls)
    ∧ Forall (λ call, is_atomic call.2 = true) calls.
Proof.
  destruct (construct_loop_terminates get_acrq_rule super_apply_rule
              is_complete _select_optimal_branch (S max_iterations) 0
              {| tableau := T; oracle_calls := [] |})
    as (passes & w' & Hloop & _); [lia|].
  destruct (construct_loop_calls _ _ _ _ _ Hloop) as (extra & Hcalls & Hall).
  unfold construct_with. rewrite Hloop.
  eexists _, _, _. split; [reflexivity|].
  cbn in Hcalls. by rewrite Hcalls.
Qed.

Lemma loop_body_keeps_no_oracle (w : World) :
  (∀ T node branch rule_info,
     llm_evaluator T = None
     → llm_evaluator (super_apply_rule T node branch rule_info) = None)
  → llm_evaluator (tableau w) = None
  → llm_evaluator (tableau (body w).2) = None
    ∧ oracle_calls (body w).2 = oracle_calls w.
Proof.
  intros Hsuper Hnone.
  split.
  - rewrite loop_body_run.
    destruct (_select_optimal_branch (tableau w)) as [selected|]; [|done].
    destruct (scan_effects selected w) as (Hsame & _).
    cbn zeta in *.
    assert (llm_evaluator (tableau (scan selected w).2) = None) as Hnone1.
    { destruct Hsame as (_ & _ & _ & _ & Hev & _). congruence. }
    destruct (scan selected w).1 as [|[node rule_info] others]; [done|].
    assert (llm_evaluator
              (apply_rule super_apply_rule node selected rule_info
                 (tableau (scan selected w).2)) = None) as Hnone2.
    { destruct (String.prefix "LLM-Eval" (name rule_info)) eqn:Hname.
      - by rewrite apply_llm_rule_evaluator.
      - unfold apply_rule. rewrite Hname. by apply Hsuper. }
    destruct (early_termination _ && _); [|done].
    by rewrite Hnone2.
  - destruct (loop_body_calls w) as (extra & Hcalls & _ & Hno).
    rewrite Hcalls, (Hno Hnone). apply app_nil_r.
Qed.

(** X9.  Without an oracle no call is made.  When the tableau has no
    evaluator and the inherited [apply_rule] does not install one,
    [construct] returns without a single oracle call, and the tableau it
    returns still has no evaluator. *)
Theorem no_oracle_no_calls (T : Tableau) :
  (∀ T node branch rule_info,
     llm_evaluator T = None
     → llm_evaluator (super_apply_rule T node branch rule_info) = None)
  → llm_evaluator T = None
  → ∃ result passes,
      run (S max_iterations) T = Some (result, passes, [])
      ∧ llm_evaluator (result_tableau result) = None.
Proof.
  intros Hsuper Hnone.
  assert (∀ fuel iteration passes w w',
            loop fuel iteration w = Some (passes, w')
            → llm_evaluator (tableau w) = None
            → llm_evaluator (tableau w') = None
              ∧ oracle_calls w' = oracle_calls w) as Hloop.
  { induction fuel as [|fuel IH]; intros iteration passes w w';
      [discriminate|].
    rewrite construct_loop_unfold. intros H Hw.
    destruct (loop_condition is_complete iteration (tableau w)).
    - destruct (loop_body_keeps_no_oracle w Hsuper Hw) as [Hev Hcalls].
      destruct (body w) as [[|] w1]; cbn [snd] in Hev, Hcalls.
      + destruct (IH _ _ _ _ H Hev) as [Hev' Hcalls'].
        split; [done|congruence].
      + injection H as _ <-. done.
    - injection H as _ <-. done. }
  destruct (construct_loop_terminates get_acrq_rule super_apply_rule
              is_complete _select_optimal_branch (S max_iterations) 0
              {| tableau := T; oracle_calls := [] |})
    as (passes & w' & Hrun & _); [lia|].
  destruct (Hloop _ _ _ _ _ Hrun Hnone) as [Hev Hcalls].
  unfold construct_with. rewrite Hrun. cbn in Hcalls. rewrite Hcalls.
  eexists _, _. split; [reflexivity|exact Hev].
Qed.

(** ** The models of the result *)

Lemma extract_models_spec (T : Tableau) (open : list nat)
    (found : list ACrQModel) :
  NoDup found
  → let ms := extract_models super_extract_model T open found in
    NoDup ms
    ∧ (∀ m, m ∈ ms
            ↔ m ∈ found
              ∨ ∃ id, id ∈ open
                      ∧ is_closed (the_branch T id) = false
                      ∧ _extract_model super_extract_model T (the_branch T id)
                        = Some m)
    ∧ length ms ≤ length found + length open.
Proof.
  cbn zeta. revert found. induction open as [|id rest IH]; intros found Hnd.
  - cbn [extract_models length]. split; [done|]. split; [|lia].
    intros m. split; [by left|].
    intros [H|(id & Hin & _)]; [done|]. by apply elem_of_nil in Hin.
  - cbn [extract_models length].
    assert (∀ ms : list ACrQModel,
              (NoDup ms
               ∧ (∀ m, m ∈ ms
                       ↔ m ∈ found
                         ∨ ∃ id', id' ∈ rest
                                  ∧ is_closed (the_branch T id') = false
                                  ∧ _extract_model super_extract_model T
                                      (the_branch T id') = Some m)
               ∧ length ms ≤ length found + length rest)
              → (∀ m, _extract_model super_extract_model T (the_branch T id)
                      = Some m
                      → is_closed (the_branch T id) = false → m ∈ found)
              → NoDup ms
                ∧ (∀ m, m ∈ ms
                        ↔ m ∈ found
                          ∨ ∃ id', id' ∈ id :: rest
                                   ∧ is_closed (the_branch T id') = false
                                   ∧ _extract_model super_extract_model T
                                       (the_branch T id') = Some m)
                ∧ length ms ≤ length found + S (length rest)) as Hskip.
    { intros ms (H1 & H2 & H3) Hhere. split; [done|]. split; [|lia].
      intros m. rewrite H2. split.
      - intros [H|(id' & Hin & Hcl & Hm)]; [by left|].
        right. exists id'. split; [by right|done].
      - intros [H|(id' & Hin & Hcl & Hm)]; [by left|].
        apply elem_of_cons in Hin as [->|Hin]; [left; by apply Hhere|].
        right. by exists id'. }
    destruct (is_closed (the_branch T id)) eqn:Hcl.
    { apply Hskip; [by apply IH|]. intros m _ ?. done. }
    destruct (_extract_model super_extract_model T (the_branch T id))
      as [model|] eqn:Hmodel.
    2: { apply Hskip; [by apply IH|]. intros m ?. done. }
    destruct (decide (model ∈ found)) as [Hin|Hin].
    { rewrite bool_decide_eq_true_2 by done.
      apply Hskip; [by apply IH|]. intros m [= <-] _. done. }
    rewrite bool_decide_eq_false_2 by done.
    destruct (IH (found ++ [model])) as (H1 & H2 & H3).
    { apply NoDup_app. split; [done|]. split; [|apply NoDup_singleton].
      intros m Hm ->%list_elem_of_singleton. done. }
    split; [done|]. split.
    + intros m. rewrite H2, elem_of_app, list_elem_of_singleton. split.
      * intros [[H| ->]|(id' & Hin' & Hcl' & Hm)].
        -- by left.
        -- right. exists id. split; [left|done].
        -- right. exists id'. split; [by right|done].
      * intros [H|(id' & Hin' & Hcl' & Hm)]; [left; by left|].
        apply elem_of_cons in Hin' as [->|Hin'].
        -- left. right. congruence.
        -- right. by exists id'.
    + rewrite length_app in H3. cbn in H3. lia.
Qed.

(** X10.  The models [construct] returns.  The list [models] of the result
    has no repetition; a model is in it exactly when it is the model
    [_extract_model] gives for a branch of the open list that is not closed;
    there are at most as many models as open branches; and the result is
    satisfiable exactly when the list is not empty. *)
Theorem models_of_the_result (T : Tableau) :
  let result := tableau_result super_extract_model T in
  NoDup (models result)
  ∧ (∀ m, m ∈ models result
          ↔ ∃ id, id ∈ open_branches T
                  ∧ is_closed (the_branch T id) = false
                  ∧ _extract_model super_extract_model T (the_branch T id)
                    = Some m)
  ∧ length (models result) ≤ result_open_branches result
  ∧ (satisfiable result = true ↔ models result ≠ []).
Proof.
  cbn zeta. unfold tableau_result.
  cbn [models result_open_branches satisfiable].
  destruct (extract_models_spec T (open_branches T) [] (@NoDup_nil_2 ACrQModel))
    as (H1 & H2 & H3).
  cbn zeta in *. split; [done|]. split.
  - intros m. rewrite H2. split.
    + intros [H|H]; [by apply elem_of_nil in H|done].
    + intros H. by right.
  - split; [exact H3|].
    rewrite bool_decide_eq_true.
    destruct (extract_models super_extract_model T (open_branches T) []);
      cbn; split; try done; try lia.
Qed.

(** ** The oracle rule, end to end *)

Abbreviation applicable := (_get_applicable_rule get_acrq_rule).






(** *** Skipping an atom on which the oracle fails *)





End EngineExtras.

(** ** The further properties at concrete inputs *)

(** X4 at the oracle rule for [P(a)] on the tableau of [[t ▷ P(a)]]. *)
Lemma oracle_rule_node_accounting_witness :
  let T := oracle_example.start in
  let T' := apply_rule base_tableau.apply_rule oracle_example.root 0
              oracle_example.rule T in
  ∃ added,
    nodes T'
    = nodes T
      ++ imap (conclusion_node oracle_example.root "LLM-Eval(P(a))"
                 (node_counter T)) added
    ∧ node_counter T' = node_counter T + length added
    ∧ (node_counter T = length (nodes T) → node_counter T' = length (nodes T'))
    ∧ added `prefix_of` oracle_example.verdict
    ∧ (oracle_example.verdict ≠ [] → added ≠ []).
Proof.
  exact (oracle_rule_node_accounting base_tableau.apply_rule
           oracle_example.root 0 oracle_example.rule oracle_example.start
           eq_refl).
Defined.

(** X5 at the same input: the atom is marked on the branch. *)
Lemma oracle_rule_marks_atom_witness :
  llm_evaluated_mem (evaluation_key examples.P_a)
    (the_branch
       (apply_rule base_tableau.apply_rule oracle_example.root 0
          oracle_example.rule oracle_example.start) 0)
  = true.
Proof.
  assert (0 ∈ map branch_id (branches oracle_example.start)) as Hin
    by (vm_compute; left).
  pose proof (oracle_rule_marks_atom_unless_branch_closes
                base_tableau.apply_rule oracle_example.root 0
                oracle_example.rule oracle_example.verdict
                oracle_example.start eq_refl eq_refl Hin) as H.
  cbn zeta in H.
  assert ((add_llm_conclusions oracle_example.root 0
             (name oracle_example.rule) oracle_example.verdict
             oracle_example.start).2 = false) as Hret
    by (vm_compute; reflexivity).
  rewrite Hret in H. destruct H as (_ & _ & _ & _ & Hmarks & _).
  rewrite Hmarks. reflexivity.
Defined.

(** X6 at the same input: the branch stays the one open branch. *)
Lemma oracle_rule_keeps_open_list_witness :
  let T' := apply_rule base_tableau.apply_rule oracle_example.root 0
              oracle_example.rule oracle_example.start in
  NoDup (open_branches T')
  ∧ ∀ id, id ∈ open_branches T' → is_closed (the_branch T' id) = false.
Proof.
  assert (NoDup (open_branches oracle_example.start)) as Hnodup.
  { vm_compute. apply NoDup_singleton. }
  assert (∀ id, id ∈ open_branches oracle_example.start
                → is_closed (the_branch oracle_example.start id) = false)
    as Hopen.
  { intros id Hid. vm_compute in Hid. apply list_elem_of_In in Hid.
    destruct Hid as [<-|[]]. reflexivity. }
  destruct (oracle_rule_keeps_open_list_sound base_tableau.apply_rule
              oracle_example.root 0 oracle_example.rule oracle_example.start
              eq_refl Hnodup Hopen) as (H1 & H2 & _).
  split; [exact H1|exact H2].
Defined.

(** X7 at the tableau of [[t ▷ P(a)]] without oracle: the first pass leaves
    the loop because the branch has no applicable rule. *)
Lemma early_termination_needs_an_oracle_witness :
  let w := {| tableau := ACrQTableau 1000 [signs.t ▷ examples.P_a] None;
              oracle_calls := [] |} in
  base_tableau._select_optimal_branch (tableau w) = None
  ∨ ∃ selected_branch,
      base_tableau._select_optimal_branch (tableau w) = Some selected_branch
      ∧ (_get_prioritized_rules base_tableau.get_acrq_rule selected_branch w).1
        = [].
Proof.
  intros w.
  apply (early_termination_needs_an_oracle base_tableau.get_acrq_rule
           base_tableau.apply_rule base_tableau._select_optimal_branch w
           (loop_body base_tableau.get_acrq_rule base_tableau.apply_rule
              base_tableau._select_optimal_branch w).2);
    vm_compute; reflexivity.
Defined.

(** The inherited [apply_rule] of the specification never touches the
    evaluator. *)
Lemma base_extend_branch_evaluator (node : TableauNode) (rule_name : string)
    (conclusion_set : list SignedFormula) (b : Branch) (T : Tableau) :
  llm_evaluator
    (base_tableau.extend_branch node rule_name conclusion_set b T).2
  = llm_evaluator T.
Proof.
  revert b T. induction conclusion_set as [|sf rest IH]; intros b T;
    [reflexivity|].
  cbn [base_tableau.extend_branch].
  destruct (add_formula b sf _) as [b' closed]. by rewrite IH.
Qed.

Lemma base_split_branch_evaluator (node : TableauNode) (rule_name : string)
    (branches_to_add : list (list SignedFormula)) (parent : Branch)
    (T : Tableau) :
  llm_evaluator
    (base_tableau.split_branch node rule_name branches_to_add parent T)
  = llm_evaluator T.
Proof.
  revert T. induction branches_to_add as [|cs rest IH]; intros T;
    [reflexivity|].
  cbn [base_tableau.split_branch].
  pose proof (base_extend_branch_evaluator node rule_name cs
                (base_tableau.with_branch_id (base_tableau.next_branch_id T)
                   parent) T) as H.
  destruct (base_tableau.extend_branch node rule_name cs _ T) as [child T1].
  cbn [snd] in H. by rewrite IH.
Qed.

Lemma base_apply_rule_evaluator (T : Tableau) (node : TableauNode)
    (branch : nat) (rule_info : RuleInfo) :
  llm_evaluator (base_tableau.apply_rule T node branch rule_info)
  = llm_evaluator T.
Proof.
  unfold base_tableau.apply_rule.
  destruct (conclusions rule_info) as [|cs [|cs' more]]; [reflexivity| |].
  - pose proof (base_extend_branch_evaluator node (name rule_info) cs
                  (base_tableau.mark_applied node rule_info
                     (the_branch T branch)) T) as H.
    destruct (base_tableau.extend_branch node (name rule_info) cs _ T)
      as [b' T1].
    cbn [snd] in H. unfold close_branch.
    destruct (is_closed b'); [|exact H].
    by destruct (bool_decide _).
  - by rewrite base_split_branch_evaluator.
Qed.

(** X9 at the tableau of [[t ▷ (P ∨ Q)]] without oracle, on top of the
    inherited engine of the specification. *)
Lemma no_oracle_no_calls_witness :
  ∃ result passes,
    examples.base_construct_with (S max_iterations)
      (ACrQTableau 1000
         [signs.t ▷ CompoundFormula "|"
                      [PropositionalAtom "P"; PropositionalAtom "Q"]]
         None)
    = Some (result, passes, [])
    ∧ llm_evaluator (result_tableau result) = None.
Proof.
  apply (no_oracle_no_calls base_tableau.get_acrq_rule base_tableau.apply_rule
           base_tableau.is_complete base_tableau._select_optimal_branch
           base_tableau._extract_model).
  - intros T node branch rule_info H.
    by rewrite base_apply_rule_evaluator.
  - reflexivity.
Defined.



(** ** [_is_bilateral_glut] and the positions of the nodes *)

Lemma add_formula_by_position (b : Branch) (signed_formula : SignedFormula)
    (node : TableauNode) :
  node_id node = length (branch_nodes b)
  → node_formula node = signed_formula
  → index_by_position b
  → index_by_position (add_formula b signed_formula node).1.
Proof.
  intros Hid Hformula Hb entry. cbn [add_formula fst formula_index branch_nodes].
  intros [Hin| ->%list_elem_of_singleton]%elem_of_app.
  - destruct (Hb entry Hin) as (old & Hold & Heq). exists old.
    split; [|done]. by apply lookup_app_l_Some.
  - exists node. split; [|done]. cbn [snd]. rewrite Hid.
    by rewrite lookup_app_r, Nat.sub_diag.
Qed.

Lemma initial_branch_by_position (formulas : list SignedFormula) (b : Branch)
    (next_id : nat) :
  next_id = length (branch_nodes b)
  → index_by_position b
  → index_by_position (initial_branch formulas b next_id).1.
Proof.
  revert b next_id.
  induction formulas as [|sf rest IH]; intros b next_id Hnext Hb; [done|].
  cbn [initial_branch].
  set (new_node := {| node_id := next_id; node_formula := sf;
                      node_parent := None; node_rule := None |}).
  specialize (IH (add_formula b sf new_node).1 (S next_id)).
  destruct (initial_branch rest _ (S next_id)) as [b' others].
  apply IH.
  - cbn. rewrite length_app. cbn. lia.
  - by apply add_formula_by_position.
Qed.

(** X11.  On the first branch of every tableau, whatever the initial
    formulas and the oracle, [_is_bilateral_glut] answers [False] for every
    formula and sign: node ids are positions there, so the method reads the
    nodes indexed under the probed formula itself.  It therefore does not
    recognise the pair [t ▷ P(a)], [t ▷ P*(a)] it is written for.  It does
    read by position: on branch 6 of the tableau that the engine of the
    specification builds from [[t ▷ (A ∨ P*(a)); t ▷ (P(a) ∨ B)]], where the
    nodes 0, 1, 3 and 10 stand at the positions 0 to 3, the probe with
    [P*(a)] reads node 10, which carries [P(a)], and answers [True], and
    the probe with [P(a)] reads position 10 and raises [IndexError]. *)
Theorem bilateral_glut_reads_by_position :
  (∀ k formulas evaluator φ s,
     _is_bilateral_glut (the_branch (ACrQTableau k formulas evaluator) 0) φ s
     = Some false)
  ∧ ∃ result,
      examples.base_construct split_example.start = Some result
      ∧ 6 ∈ open_branches (result_tableau result)
      ∧ map node_id (branch_nodes (the_branch (result_tableau result) 6))
        = [0; 1; 3; 10]
      ∧ _is_bilateral_glut (the_branch (result_tableau result) 6)
          split_example.P_star_a signs.t = Some true
      ∧ _is_bilateral_glut (the_branch (result_tableau result) 6)
          split_example.P_a signs.t = None.
Proof.
  split.
  - intros k formulas evaluator φ s.
    destruct (ACrQTableau_branches k formulas evaluator) as (_ & -> & _).
    assert (index_by_position
              (initial_branch formulas (_create_branch ∅ 0) 0).1) as Hpos.
    { apply initial_branch_by_position; [reflexivity|].
      intros entry Hin. by apply elem_of_nil in Hin. }
    unfold _is_bilateral_glut.
    destruct (base_and_polarity φ) as [[base_name is_negative]|] eqn:Hbase;
      [|reflexivity].
    apply glut_scan_same_key; [done|].
    intros id Hid.
    apply index_lookup_elem in Hid as (entry & Hin & <- & Heq).
    destruct (Hpos entry Hin) as (node & Hnode & Hformula).
    exists node. split; [done|]. by rewrite Hformula.
  - eexists. split; [vm_compute; reflexivity|].
    split; [vm_compute; set_solver|].
    split; [vm_compute; reflexivity|].
    split; vm_compute; reflexivity.
Qed.
